(** * Screen recorder: a shallow embedding of [recorder.py]

    The recorder selects a screen region, opens a video writer inside a
    context manager, and runs a capture loop (grab, overlay, write, count,
    preview, stop check) until a stop signal or an exception ends it.

    Everything the program obtains from the outside (the ROI picker, the
    screen grabber, the clock, the video writer, the preview window and the
    keyboard) is supplied by an environment script; the program itself is
    written in a small state-and-exception monad over a [world] that keeps a
    chronological event log, the context manager's [self.writer] and the
    local [frame_count]. *)

From Stdlib Require Import ZArith List Ascii String QArith Qminmax Bool Lia.
Import ListNotations.

Local Open Scope list_scope.
Local Open Scope Z_scope.

(* ================================================================== *)
(** ** Text: decimal rendering as [strftime] and the f-strings do it *)
(* ================================================================== *)

Module Text.

(** Python strings are sequences of characters; slicing and [len] are list
    operations, so characters are kept in a list. *)
Definition text := list ascii.

Definition digit_char (d : Z) : ascii := ascii_of_nat (48 + Z.to_nat d).

(** [str(n)] for a non-negative integer: digits are produced from the least
    significant one until the quotient is zero. *)
Fixpoint dec_aux (fuel : nat) (n : Z) (acc : text) : text :=
  match fuel with
  | O => acc
  | S f =>
      let acc' := digit_char (n mod 10) :: acc in
      if n / 10 =? 0 then acc' else dec_aux f (n / 10) acc'
  end.

Definition dec (n : Z) : text := dec_aux (S (Z.to_nat n)) n [].

(** ['%0<w>d' % n]: the decimal digits, left-padded with zeros up to width
    [w]; a number that needs more digits is not cut. *)
Definition zpad (w : nat) (n : Z) : text :=
  let s := dec n in repeat "0"%char (w - List.length s) ++ s.

(** [s[:-k]]: everything but the last [k] characters. *)
Definition drop_last (k : nat) (s : text) : text := firstn (List.length s - k) s.

(** The [w] low decimal digits of [n], most significant first. *)
Fixpoint digits (w : nat) (n : Z) : text :=
  match w with
  | O => []
  | S w' => digits w' (n / 10) ++ [digit_char (n mod 10)]
  end.

End Text.

Import Text.

(* ================================================================== *)
(** ** Instants and [format_timestamp] *)
(* ================================================================== *)

(** The fields of a [datetime.datetime]. *)
Record datetime := mkDatetime {
  year : Z; month : Z; day : Z;
  hour : Z; minute : Z; second : Z;
  microsecond : Z
}.

(** The ranges [datetime] itself enforces on its fields. *)
Definition valid_datetime (t : datetime) : Prop :=
  1 <= year t <= 9999 /\ 1 <= month t <= 12 /\ 1 <= day t <= 31 /\
  0 <= hour t < 24 /\ 0 <= minute t < 60 /\ 0 <= second t < 60 /\
  0 <= microsecond t < 1000000.

Definition lit (s : string) : text := list_ascii_of_string s.

(** [t.strftime('%Y-%m-%d %H:%M:%S.%f')]: [%Y] is the year padded to four
    digits, [%m %d %H %M %S] are padded to two and [%f] is the microsecond
    padded to six. *)
Definition strftime_ymd_hms_f (t : datetime) : text :=
  zpad 4 (year t) ++ lit "-" ++ zpad 2 (month t) ++ lit "-" ++ zpad 2 (day t)
  ++ lit " " ++ zpad 2 (hour t) ++ lit ":" ++ zpad 2 (minute t) ++ lit ":"
  ++ zpad 2 (second t) ++ lit "." ++ zpad 6 (microsecond t).

(** [format_timestamp = lambda: datetime.now().strftime(...)[:-3]], with the
    clock reading [now] made an argument. *)
Definition format_timestamp (now : datetime) : text :=
  drop_last 3 (strftime_ymd_hms_f now).

(** [t.strftime('%Y%m%d_%H%M%S')], used for the output file name. *)
Definition strftime_compact (t : datetime) : text :=
  zpad 4 (year t) ++ zpad 2 (month t) ++ zpad 2 (day t) ++ lit "_"
  ++ zpad 2 (hour t) ++ zpad 2 (minute t) ++ zpad 2 (second t).

(** The layout the overlay is documented to have: [YYYY-MM-DD HH:MM:SS.mmm]
    where [mmm] is the whole number of milliseconds in the microsecond field. *)
Definition timestamp_layout (t : datetime) : text :=
  digits 4 (year t) ++ lit "-" ++ digits 2 (month t) ++ lit "-"
  ++ digits 2 (day t) ++ lit " " ++ digits 2 (hour t) ++ lit ":"
  ++ digits 2 (minute t) ++ lit ":" ++ digits 2 (second t) ++ lit "."
  ++ digits 3 (microsecond t / 1000).

(** [str(n)] for any integer, as the f-strings render [w] and [h]. *)
Definition str_int (n : Z) : text :=
  if n <? 0 then "-"%char :: dec (- n) else dec n.

(* ================================================================== *)
(** ** Exceptions, the world and the program monad *)
(* ================================================================== *)

(** The exceptions the program distinguishes.  [KeyboardInterrupt] and
    [SystemExit] derive from [BaseException] only, so an [except Exception]
    clause does not catch them; [Exception msg] stands for any instance of
    [Exception] whose [str] is [msg]. *)
Inductive exn :=
| KeyboardInterrupt
| Exception (msg : text)
| SystemExit (msg : text).

(** [str(e)], as [f"{e}"] renders it. *)
Definition str_exn (e : exn) : text :=
  match e with
  | KeyboardInterrupt => []
  | Exception msg => msg
  | SystemExit msg => msg
  end.

(** A frame handed to the encoder: the grabbed image with the timestamp and
    the REC indicator drawn on it. *)
Record frame := mkFrame {
  pixels : Z;
  stamp : text;
  rec_circle_x : Z
}.

(** The [cv2.VideoWriter] object held in [self.writer]. *)
Record VideoWriter := mkVideoWriter {
  vw_filename : text;
  vw_fourcc : text;
  vw_fps : Q;
  vw_resolution : Z * Z;
  vw_isOpened : bool
}.

(** Everything the program does to the outside, in the order it happens. *)
Inductive event :=
| EvPrint (line : text)
| EvSummary (fname : text) (duration : Q) (frames : Z) (avg_fps : Q)
| EvOpen (vw : VideoWriter)
| EvWrite (f : frame)
| EvRelease
| EvShow (fps : Q) (w h : Z)
| EvDestroyAllWindows.

Record world := mkWorld {
  log : list event;                  (* oldest event first *)
  self_writer : option VideoWriter;  (* [self.writer] of the context manager *)
  frame_count : option Z             (* the local of [main]; unbound at first *)
}.

Definition world0 : world := mkWorld [] None None.

(** A computation returns, raises, or is still running when the environment
    script has been used up. *)
Inductive result (A : Type) :=
| Ret (a : A)
| Raise (e : exn)
| Running.

Arguments Ret {A} a.
Arguments Raise {A} e.
Arguments Running {A}.

Definition M (A : Type) : Type := world -> result A * world.

Definition ret {A} (a : A) : M A := fun w => (Ret a, w).

Definition bind {A B} (m : M A) (k : A -> M B) : M B :=
  fun w =>
    match m w with
    | (Ret a, w') => k a w'
    | (Raise e, w') => (Raise e, w')
    | (Running, w') => (Running, w')
    end.

Definition raise {A} (e : exn) : M A := fun w => (Raise e, w).

Definition running {A} : M A := fun w => (Running, w).

Notation "x <- m ;; k" := (bind m (fun x => k))
  (at level 61, m at next level, right associativity).
Notation "m ;;; k" := (bind m (fun _ => k))
  (at level 61, right associativity).

Definition emit (e : event) : M unit :=
  fun w => (Ret tt, mkWorld (log w ++ [e]) (self_writer w) (frame_count w)).

Definition print (line : text) : M unit := emit (EvPrint line).

(** [sys.exit(msg)] raises [SystemExit(msg)]. *)
Definition sys_exit {A} (msg : text) : M A := raise (SystemExit msg).

(** A call into a library that either returns [a] or raises. *)
Definition call {A} (r : exn + A) : M A :=
  match r with
  | inl e => raise e
  | inr a => ret a
  end.

Definition call_ (r : option exn) : M unit :=
  match r with
  | Some e => raise e
  | None => ret tt
  end.

(** [try: body / except ...:] the clauses are given as a partial function
    from the raised exception to the handler that matches it. *)
Definition try_except {A} (body : M A) (clauses : exn -> option (M A)) : M A :=
  fun w =>
    match body w with
    | (Raise e, w') =>
        match clauses e with
        | Some handler => handler w'
        | None => (Raise e, w')
        end
    | r => r
    end.

(** [except Exception as e: handler(str(e))]. *)
Definition except_Exception {A} (handler : text -> M A) (e : exn) : option (M A) :=
  match e with
  | Exception msg => Some (handler msg)
  | _ => None
  end.

(** [try: body / finally: fin]. *)
Definition try_finally {A} (body : M A) (fin : M unit) : M A :=
  fun w =>
    match body w with
    | (Ret a, w') => (fin ;;; ret a) w'
    | (Raise e, w') => (fin ;;; raise e) w'
    | (Running, w') => (Running, w')
    end.

(** [with ctx as r: body]: [enter] is [__enter__], [exit] is [__exit__]
    applied to the exception that left the body (if any); its result is the
    truth value of what [__exit__] returned, and a true one suppresses the
    exception. *)
Definition with_stmt {R} (enter : M R) (exit : option exn -> M bool)
    (body : R -> M unit) : M unit :=
  r <- enter ;;
  fun w =>
    match body r w with
    | (Ret tt, w') => (exit None ;;; ret tt) w'
    | (Raise e, w') =>
        (suppress <- exit (Some e) ;; if suppress then ret tt else raise e) w'
    | (Running, w') => (Running, w')
    end.

(* ================================================================== *)
(** ** [VideoWriterContext] *)
(* ================================================================== *)

Record VideoWriterContext := mkContext {
  filename : text;
  fourcc : text;
  fps : Q;
  resolution : Z * Z
}.

Definition set_writer (v : option VideoWriter) : M unit :=
  fun w => (Ret tt, mkWorld (log w) v (frame_count w)).

Definition get_writer : M (option VideoWriter) :=
  fun w => (Ret (self_writer w), w).

(** [__init__]: stores the parameters and sets [self.writer = None]. *)
Definition VideoWriterContext_init (fname code : text) (rate : Q)
    (res : Z * Z) : M VideoWriterContext :=
  set_writer None ;;;
  ret (mkContext fname code rate res).

(** [__enter__].  [opening] is what [cv2.VideoWriter(...)] does: it raises,
    or it returns an object whose [isOpened()] is the given boolean. *)
Definition VideoWriterContext_enter (self : VideoWriterContext)
    (opening : exn + bool) : M VideoWriter :=
  try_except
    (ok <- call opening ;;
     let vw := mkVideoWriter (filename self) (fourcc self) (fps self)
                 (resolution self) ok in
     emit (EvOpen vw) ;;;
     set_writer (Some vw) ;;;
     if negb ok
     then raise (Exception
                   (lit "Failed to initialize video writer for " ++ filename self))
     else ret vw)
    (except_Exception (fun msg => sys_exit (lit "VideoWriter Error: " ++ msg))).

(** [self.writer.release()]. *)
Definition release (vw : VideoWriter) : M unit :=
  emit EvRelease ;;;
  set_writer (Some (mkVideoWriter (vw_filename vw) (vw_fourcc vw) (vw_fps vw)
                      (vw_resolution vw) false)).

(** [__exit__]: it has no [return], so it returns [None], which is false. *)
Definition VideoWriterContext_exit (exc : option exn) : M bool :=
  writer <- get_writer ;;
  match writer with
  | Some vw => release vw
  | None => ret tt
  end ;;;
  match exc with
  | Some e => print (lit "Exception during recording: " ++ str_exn e)
  | None => ret tt
  end ;;;
  ret false.

(* ================================================================== *)
(** ** [select_region] and [load_font] *)
(* ================================================================== *)

Definition rect := (Z * Z * Z * Z)%type.

Definition rect_eqb (a b : rect) : bool :=
  let '(a1, a2, a3, a4) := a in
  let '(b1, b2, b3, b4) := b in
  (a1 =? b1) && (a2 =? b2) && (a3 =? b3) && (a4 =? b4).

(** What the selection dialogue does: [grabbed] is the [shape] of the
    screenshot as (rows, columns), [picked] the (x, y, w, h) that
    [cv2.selectROI] returns; either call may raise instead. *)
Record select_env := mkSelectEnv {
  grabbed : exn + (Z * Z);
  picked : exn + rect
}.

Definition select_region (e : select_env) : M rect :=
  try_except
    (shape <- call (grabbed e) ;;
     roi <- call (picked e) ;;
     emit EvDestroyAllWindows ;;;
     if rect_eqb roi (0, 0, 0, 0)
     then print (lit "Using full screen capture") ;;;
          ret (0, 0, snd shape, fst shape)
     else let '(x, y, w, h) := roi in
          ret (x, y, x + w, y + h))
    (except_Exception
       (fun msg => sys_exit (lit "Region selection failed: " ++ msg))).

Inductive font := Arial (size : Z) | DefaultFont.

(** [load_font]: the bare [except:] absorbs whatever [truetype] raises. *)
Definition load_font (truetype : option exn) (size : Z) : font :=
  match truetype with
  | None => Arial size
  | Some _ => DefaultFont
  end.

(* ================================================================== *)
(** ** The capture loop *)
(* ================================================================== *)

Definition Qlt_bool (a b : Q) : bool := negb (Qle_bool b a).

(** Python's two-argument [max]: the second argument wins only when it is
    strictly greater. *)
Definition py_max (a b : Q) : Q := if Qlt_bool a b then b else a.

(** Python's [/]: division by zero raises [ZeroDivisionError]. *)
Definition truediv (a b : Q) : M Q :=
  if Qeq_bool b 0
  then raise (Exception (lit "float division by zero"))
  else ret (a / b)%Q.

Definition epsilon : Q := 1 # 1000.

(** [frame_count / max(elapsed, 0.001)], used for the preview and (with the
    duration) for the summary. *)
Definition rate (count : Z) (elapsed : Q) : M Q :=
  truediv (inject_Z count) (py_max elapsed epsilon).

Definition set_frame_count (n : Z) : M unit :=
  fun w => (Ret tt, mkWorld (log w) (self_writer w) (Some n)).

(** Reading the local [frame_count]; Python raises [UnboundLocalError] when
    it has not been assigned yet. *)
Definition get_frame_count : M Z :=
  fun w =>
    match frame_count w with
    | Some n => (Ret n, w)
    | None =>
        (Raise (Exception
                  (lit "cannot access local variable 'frame_count'")), w)
    end.

(** What the outside does during one cycle of the loop, call by call. *)
Record cycle_env := mkCycleEnv {
  grab : exn + Z;               (* [ImageGrab.grab(bbox=region)] *)
  overlay_now : datetime;       (* the clock read by [format_timestamp] *)
  overlay : option exn;         (* [Draw], [text], [ellipse], [cvtColor] *)
  write : option exn;           (* [out.write(frame)] *)
  elapsed : exn + Q;            (* [(now() - start_time).total_seconds()] *)
  preview : option exn;         (* [resize], [putText], [imshow] *)
  waitKey : exn + Z;            (* [cv2.waitKey(1)] *)
  window_visible : exn + Q      (* [getWindowProperty(.., WND_PROP_VISIBLE)] *)
}.

Definition ord_q : Z := 113.

(** One pass through the body of [while True]; the result tells whether the
    [break] was taken. *)
Definition cycle (w h : Z) (c : cycle_env) : M bool :=
  img <- call (grab c) ;;
  call_ (overlay c) ;;;
  let f := mkFrame img (format_timestamp (overlay_now c)) (w - 70) in
  call_ (write c) ;;;
  emit (EvWrite f) ;;;
  n <- get_frame_count ;;
  set_frame_count (n + 1) ;;;
  secs <- call (elapsed c) ;;
  n' <- get_frame_count ;;
  shown <- rate n' secs ;;
  call_ (preview c) ;;;
  emit (EvShow shown w h) ;;;
  k <- call (waitKey c) ;;
  let key := Z.land k 255 in
  if (key =? ord_q) || (key =? 27)
  then ret true
  else visible <- call (window_visible c) ;;
       ret (Qlt_bool visible 1).

Fixpoint capture_loop (w h : Z) (cycles : list cycle_env) : M unit :=
  match cycles with
  | [] => running
  | c :: rest =>
      stop <- cycle w h c ;;
      if stop then ret tt else capture_loop w h rest
  end.

(* ================================================================== *)
(** ** [main] and the process around it *)
(* ================================================================== *)

Record session_env := mkSessionEnv {
  selection : select_env;
  fname_now : datetime;        (* the clock read for the file name *)
  truetype : option exn;       (* [ImageFont.truetype] *)
  opening : exn + bool;        (* [cv2.VideoWriter(...)] and [isOpened()] *)
  cycles : list cycle_env;
  duration : Q;                (* [(now() - start_time).total_seconds()] *)
  closing : option exn         (* [cv2.destroyAllWindows()] in [finally] *)
}.

Definition output_name (now : datetime) : text :=
  lit "screen_rec_" ++ strftime_compact now ++ lit ".mp4".

(** The body of the [try] in [main]. *)
Definition session (env : session_env) : M unit :=
  print (lit "Starting screen recorder...") ;;;
  region <- select_region (selection env) ;;
  let '(x1, y1, x2, y2) := region in
  let w := x2 - x1 in
  let h := y2 - y1 in
  let fname := output_name (fname_now env) in
  let font := load_font (truetype env) 16 in
  print (lit "Recording " ++ str_int w ++ lit "x" ++ str_int h
         ++ lit " region | Press 'Q' to stop") ;;;
  ctx <- VideoWriterContext_init fname (lit "mp4v") 60 (w, h) ;;
  with_stmt (VideoWriterContext_enter ctx (opening env))
    VideoWriterContext_exit
    (fun out => set_frame_count 0 ;;; capture_loop w h (cycles env)) ;;;
  n <- get_frame_count ;;
  avg <- rate n (duration env) ;;
  emit (EvSummary fname (duration env) n avg).

(** The [except] clauses of [main]. *)
Definition main_clauses (e : exn) : option (M unit) :=
  match e with
  | KeyboardInterrupt => Some (print (lit "Recording aborted by user"))
  | Exception msg => Some (sys_exit (lit "Critical error: " ++ msg))
  | SystemExit _ => None
  end.

(** The call in the [finally] clause is made on every way out of the [try];
    when it raises, its exception replaces whatever was on its way. *)
Definition main (env : session_env) : M unit :=
  try_finally
    (try_except (session env) main_clauses)
    (emit EvDestroyAllWindows ;;; call_ (closing env)).

(** How the interpreter ends the process once [main()] is over. *)
Record exit_report := mkExit {
  status : Z;
  stderr : text
}.

Definition interpreter_exit (r : result unit) : option exit_report :=
  match r with
  | Ret _ => Some (mkExit 0 [])
  | Raise (SystemExit msg) => Some (mkExit 1 msg)
  | Raise (Exception msg) => Some (mkExit 1 (lit "Traceback: " ++ msg))
  | Raise KeyboardInterrupt => Some (mkExit 130 (lit "KeyboardInterrupt"))
  | Running => None
  end.

Definition run (env : session_env) : option exit_report * world :=
  let '(r, w) := main env world0 in (interpreter_exit r, w).

(* ================================================================== *)
(** ** Observations on the event log *)
(* ================================================================== *)

Definition is_release (e : event) : bool :=
  match e with EvRelease => true | _ => false end.

Definition is_summary (e : event) : bool :=
  match e with EvSummary _ _ _ _ => true | _ => false end.

(** How many times [release()] was called. *)
Definition release_count (w : world) : nat :=
  List.length (filter is_release (log w)).

Fixpoint frames_of (evs : list event) : list frame :=
  match evs with
  | [] => []
  | EvWrite f :: rest => f :: frames_of rest
  | _ :: rest => frames_of rest
  end.

(** The frames appended to the output file, in order. *)
Definition frames_written (w : world) : list frame := frames_of (log w).

(** The summaries printed so far. *)
Definition summaries (w : world) : list event := filter is_summary (log w).

(** The events one cycle can produce. *)
Definition cycle_event (e : event) : Prop :=
  match e with
  | EvWrite _ | EvShow _ _ _ => True
  | _ => False
  end.


(** The events that precede the opening of the encoder. *)
Definition setup_event (e : event) : Prop :=
  match e with
  | EvPrint _ | EvDestroyAllWindows => True
  | _ => False
  end.

Definition region_size (r : rect) : Z * Z :=
  let '(x1, y1, x2, y2) := r in (x2 - x1, y2 - y1).

(** [select_region] returns [region] in this session. *)
Definition selected (env : session_env) (region : rect) : Prop :=
  forall w, fst (select_region (selection env) w) = Ret region.

(** The [cv2.VideoWriter] that [main] constructs for a region. *)
Definition writer_for (env : session_env) (region : rect) (ok : bool)
    : VideoWriter :=
  mkVideoWriter (output_name (fname_now env)) (lit "mp4v") 60
    (region_size region) ok.

(** The summary [main] prints for a frame count [n]. *)
Definition summary_of (env : session_env) (n : Z) : event :=
  EvSummary (output_name (fname_now env)) (duration env) n
    (inject_Z n / py_max (duration env) epsilon)%Q.

(** The line [__exit__] prints for an exception. *)
Definition exit_message (e : exn) : event :=
  EvPrint (lit "Exception during recording: " ++ str_exn e).

Definition aborted_message : event :=
  EvPrint (lit "Recording aborted by user").

(** The encoder was opened successfully at some point of the log. *)
Definition encoder_opened (w : world) : Prop :=
  exists vw, In (EvOpen vw) (log w) /\ vw_isOpened vw = true.

(** A cycle that certainly ends the loop: the grabber raises, or a stop key
    is read. *)
Definition ends_cycle (c : cycle_env) : Prop :=
  (exists e, grab c = inl e) \/
  (exists k, waitKey c = inr k /\
             (Z.land k 255 = ord_q \/ Z.land k 255 = 27)).

(** The ways the body of [main]'s [try] can leave off, with the world each
    one leaves behind. *)
Inductive session_shape (env : session_env) : result unit -> world -> Prop :=
| ended_before_open (e : exn) (pre : list event) :
    Forall setup_event pre ->
    (forall region ok, selected env region -> opening env <> inr ok) ->
    session_shape env (Raise e) (mkWorld pre None None)
| ended_open_failed (region : rect) (pre : list event) (msg : text) :
    selected env region ->
    Forall setup_event pre ->
    session_shape env (Raise (SystemExit msg))
      (mkWorld (pre ++ [EvOpen (writer_for env region false)])
         (Some (writer_for env region false)) None)
| still_running (region : rect) (pre evs : list event) :
    selected env region ->
    Forall setup_event pre ->
    Forall cycle_event evs ->
    ~ Exists ends_cycle (cycles env) ->
    session_shape env Running
      (mkWorld (pre ++ EvOpen (writer_for env region true) :: evs)
         (Some (writer_for env region true))
         (Some (Z.of_nat (List.length (frames_of evs)))))
| ended_by_stop (region : rect) (pre evs : list event) :
    selected env region ->
    Forall setup_event pre ->
    Forall cycle_event evs ->
    (1 <= List.length (frames_of evs))%nat ->
    session_shape env (Ret tt)
      (mkWorld
         (pre ++ EvOpen (writer_for env region true) :: evs
          ++ [EvRelease;
              summary_of env (Z.of_nat (List.length (frames_of evs)))])
         (Some (writer_for env region false))
         (Some (Z.of_nat (List.length (frames_of evs)))))
| ended_by_exception (region : rect) (pre evs : list event) (e : exn) :
    selected env region ->
    Forall setup_event pre ->
    Forall cycle_event evs ->
    session_shape env (Raise e)
      (mkWorld
         (pre ++ EvOpen (writer_for env region true) :: evs
          ++ [EvRelease; exit_message e])
         (Some (writer_for env region false))
         (Some (Z.of_nat (List.length (frames_of evs))))).

(** Appending events to the log of a world. *)
Definition logged (w : world) (evs : list event) : world :=
  mkWorld (log w ++ evs) (self_writer w) (frame_count w).

(** What [main] makes of the way its [try] body ended. *)
Definition main_outcome (r : result unit) (w : world) : result unit * world :=
  match r with
  | Ret _ => (Ret tt, logged w [EvDestroyAllWindows])
  | Raise KeyboardInterrupt =>
      (Ret tt, logged (logged w [aborted_message]) [EvDestroyAllWindows])
  | Raise (Exception msg) =>
      (Raise (SystemExit (lit "Critical error: " ++ msg)),
       logged w [EvDestroyAllWindows])
  | Raise (SystemExit msg) =>
      (Raise (SystemExit msg), logged w [EvDestroyAllWindows])
  | Running => (Running, w)
  end.

(** What the [finally] clause makes of a result: an exception raised by its
    call replaces it, unless the program is still running. *)
Definition closed (cl : option exn) (r : result unit) : result unit :=
  match r, cl with
  | Running, _ => Running
  | _, Some x => Raise x
  | _, None => r
  end.

(** Region selection failed with an exception whose text is [msg]. *)
Definition selection_fails (env : session_env) (msg : text) : Prop :=
  grabbed (selection env) = inl (Exception msg) \/
  exists shape,
    grabbed (selection env) = inr shape /\
    picked (selection env) = inl (Exception msg).

(** The region was selected, but opening the encoder failed: the
    constructor raised, or [isOpened()] was false. *)
Definition open_fails (env : session_env) (msg : text) : Prop :=
  (exists region, selected env region) /\
  (opening env = inl (Exception msg) \/
   opening env = inr false /\
   msg = lit "Failed to initialize video writer for "
         ++ output_name (fname_now env)).

(** The process ended with a non-zero status and the diagnostic [diag]. *)
Definition failed_with (env : session_env) (diag : text) : Prop :=
  exists code : Z, fst (run env) = Some (mkExit code diag) /\ code <> 0.

(** The process ended with a non-zero status. *)
Definition exits_nonzero (env : session_env) : Prop :=
  exists rep : exit_report, fst (run env) = Some rep /\ status rep <> 0.

(** What [__exit__] does to the encoder: one [release()] when
    [self.writer] is set. *)
Definition release_events (w : world) : list event :=
  match self_writer w with
  | Some _ => [EvRelease]
  | None => []
  end.

(** What [__exit__] prints: a line when it was handed an exception. *)
Definition report_events (exc : option exn) : list event :=
  match exc with
  | Some e => [exit_message e]
  | None => []
  end.

(** What the [except] clause of [main] that matches [e] prints. *)
Definition handler_events (e : exn) : list event :=
  match e with
  | KeyboardInterrupt => [aborted_message]
  | _ => []
  end.

(** What [main] raises in turn when its [try] body raised [e]. *)
Definition handler_result (e : exn) : result unit :=
  match e with
  | KeyboardInterrupt => Ret tt
  | Exception msg => Raise (SystemExit (lit "Critical error: " ++ msg))
  | SystemExit msg => Raise (SystemExit msg)
  end.

(* ================================================================== *)
(** ** Sample sessions *)
(* ================================================================== *)

Definition sample_instant : datetime := mkDatetime 2024 3 1 10 15 30 123456.

(** A cycle in which every call returns and [waitKey] yields [k]. *)
Definition quiet_cycle (k : Z) : cycle_env :=
  mkCycleEnv (inr 7) sample_instant None None (inr (1 # 2)) None (inr k)
    (inr 1%Q).

(** A cycle in which [ImageGrab.grab] raises [e]. *)
Definition broken_cycle (e : exn) : cycle_env :=
  mkCycleEnv (inl e) sample_instant None None (inr (1 # 2)) None (inr (-1))
    (inr 1%Q).

(** The region (100,100)-(500,400) drawn on a 1920x1080 display. *)
Definition sample_selection : select_env :=
  mkSelectEnv (inr (1080, 1920)) (inr (100, 100, 400, 300)).

Definition sample_env (script : list cycle_env) : session_env :=
  mkSessionEnv sample_selection sample_instant None (inr true) script 3 None.

(** Three cycles, the third one with [q] pressed. *)
Definition env_stop : session_env :=
  sample_env [quiet_cycle (-1); quiet_cycle (-1); quiet_cycle 113].

(** Two cycles, then Ctrl-C while the third frame is grabbed. *)
Definition env_interrupt : session_env :=
  sample_env [quiet_cycle (-1); quiet_cycle (-1);
              broken_cycle KeyboardInterrupt].

(** Two cycles, then the grabber fails. *)
Definition env_error : session_env :=
  sample_env [quiet_cycle (-1); quiet_cycle (-1);
              broken_cycle (Exception (lit "screen grab failed"))].

(** A click without a drag at (100,100): a rectangle of zero area. *)
Definition click_selection : select_env :=
  mkSelectEnv (inr (1080, 1920)) (inr (100, 100, 0, 0)).

(* ================================================================== *)
(** ** The loop as a function of its script *)
(* ================================================================== *)

(** A key code whose low byte is [q] or ESC. *)
Definition stop_key (k : Z) : bool :=
  (k mod 256 =? 113) || (k mod 256 =? 27).

(** What one cycle comes to, read off the environment alone: the first call
    that raises decides; otherwise a stop key stops the loop, and only when
    none was read is the window asked whether it is still visible. *)
Definition cycle_result (c : cycle_env) : result bool :=
  match grab c with
  | inl e => Raise e
  | inr _ =>
  match overlay c with
  | Some e => Raise e
  | None =>
  match write c with
  | Some e => Raise e
  | None =>
  match elapsed c with
  | inl e => Raise e
  | inr _ =>
  match preview c with
  | Some e => Raise e
  | None =>
  match waitKey c with
  | inl e => Raise e
  | inr k =>
      if stop_key k then Ret true
      else match window_visible c with
           | inl e => Raise e
           | inr v => Ret (Qlt_bool v 1)
           end
  end end end end end end.

(** The frame one cycle appends to the file: there is one as soon as the
    grab, the drawing and the write all return. *)
Definition cycle_written (w : Z) (c : cycle_env) : option frame :=
  match grab c, overlay c, write c with
  | inr img, None, None =>
      Some (mkFrame img (format_timestamp (overlay_now c)) (w - 70))
  | _, _, _ => None
  end.

Definition written_frames (o : option frame) : list frame :=
  match o with
  | Some f => [f]
  | None => []
  end.

(** How the loop ends on a script. *)
Fixpoint loop_result (script : list cycle_env) : result unit :=
  match script with
  | [] => Running
  | c :: rest =>
      match cycle_result c with
      | Ret true => Ret tt
      | Ret false => loop_result rest
      | Raise e => Raise e
      | Running => Running
      end
  end.

(** The frames the loop appends to the file on a script. *)
Fixpoint loop_frames (w : Z) (script : list cycle_env) : list frame :=
  match script with
  | [] => []
  | c :: rest =>
      written_frames (cycle_written w c)
      ++ match cycle_result c with
         | Ret false => loop_frames w rest
         | _ => []
         end
  end.

(** What [session] makes of the way the loop ended. *)
Definition session_result (r : result unit) : result unit :=
  match r with
  | Ret _ => Ret tt
  | Raise e => Raise e
  | Running => Running
  end.

(** What follows the loop in the log of [session]. *)
Definition session_epilogue (env : session_env) (r : result unit) (n : Z)
    : list event :=
  match r with
  | Ret _ => [EvRelease; summary_of env n]
  | Raise e => [EvRelease; exit_message e]
  | Running => []
  end.

(** The state of the encoder, as the log lets one follow it. *)
Inductive phase := Idle | Recording | Released | Unusable.

(** The events each state admits: the encoder is constructed once, frames
    are written and previewed only while it is open, it is released only
    when open, and a summary comes only after the release. *)
Definition protocol_step (p : phase) (e : event) : option phase :=
  match e with
  | EvOpen vw =>
      match p with
      | Idle => Some (if vw_isOpened vw then Recording else Unusable)
      | _ => None
      end
  | EvWrite _ | EvShow _ _ _ =>
      match p with
      | Recording => Some Recording
      | _ => None
      end
  | EvRelease =>
      match p with
      | Recording => Some Released
      | _ => None
      end
  | EvSummary _ _ _ _ =>
      match p with
      | Released => Some Released
      | _ => None
      end
  | EvPrint _ | EvDestroyAllWindows => Some p
  end.

Fixpoint protocol (p : phase) (evs : list event) : option phase :=
  match evs with
  | [] => Some p
  | e :: rest =>
      match protocol_step p e with
      | Some p' => protocol p' rest
      | None => None
      end
  end.

(** A cycle after which the loop goes on. *)
Definition continues (c : cycle_env) : Prop := cycle_result c = Ret false.

(** What an [except Exception as e: sys.exit(prefix + str(e))] clause makes
    of an exception: an [Exception] becomes a [SystemExit] with the prefixed
    text, anything else passes. *)
Definition escalated (prefix : text) (e : exn) : exn :=
  match e with
  | Exception msg => SystemExit (prefix ++ msg)
  | _ => e
  end.

(** The first exception the selection dialogue raises, if any. *)
Definition selection_fault (e : select_env) : option exn :=
  match grabbed e with
  | inl x => Some x
  | inr _ =>
      match picked e with
      | inl x => Some x
      | inr _ => None
      end
  end.

(** An exception [e] leaves the capture loop of a session whose region was
    selected and whose encoder opened. *)
Definition loop_raises (env : session_env) (e : exn) : Prop :=
  (exists region, selected env region) /\
  opening env = inr true /\
  loop_result (cycles env) = Raise e.

(** A [KeyboardInterrupt] is raised by the selection dialogue, by the
    construction of the encoder, or by a call of the capture loop. *)
Definition interrupt_raised (env : session_env) : Prop :=
  selection_fault (selection env) = Some KeyboardInterrupt \/
  ((exists region, selected env region) /\
   opening env = inl KeyboardInterrupt) \/
  loop_raises env KeyboardInterrupt.

(** A session whose encoder reports that it is not open. *)
Definition env_unopened : session_env :=
  mkSessionEnv sample_selection sample_instant None (inr false)
    [quiet_cycle (-1); quiet_cycle 113] 0 None.

(** Ctrl-C arrives while [load_font] is loading the font; the third cycle
    then reads [q]. *)
Definition env_font_interrupt : session_env :=
  mkSessionEnv sample_selection sample_instant (Some KeyboardInterrupt)
    (inr true) [quiet_cycle (-1); quiet_cycle (-1); quiet_cycle 113] 3 None.

(** Ctrl-C arrives in the third cycle, and the final
    [cv2.destroyAllWindows()] raises. *)
Definition env_interrupt_closing_fails : session_env :=
  mkSessionEnv sample_selection sample_instant None (inr true)
    [quiet_cycle (-1); quiet_cycle (-1); broken_cycle KeyboardInterrupt] 3
    (Some (Exception (lit "The function is not implemented"))).

(* ================================================================== *)
(** * Properties *)
(* ================================================================== *)

(** ** Timestamp formatting *)

Section Timestamp.

Lemma digits_length (w : nat) : forall n, List.length (digits w n) = w.
Proof.
  induction w as [|w IH]; intros n; simpl.
  - reflexivity.
  - rewrite length_app, IH. simpl. lia.
Qed.

Lemma digits_zero (w : nat) : digits w 0 = repeat "0"%char w.
Proof.
  induction w as [|w IH].
  - reflexivity.
  - change (digits (S w) 0) with (digits w 0 ++ ["0"%char]).
    rewrite IH, <- repeat_cons. reflexivity.
Qed.

(** Padding the digits [dec_aux] produces gives the fixed-width rendering. *)
Lemma dec_aux_digits (w : nat) :
  forall (fuel : nat) (n : Z) (acc : text),
    0 <= n < 10 ^ Z.of_nat (S w) ->
    n < Z.of_nat fuel ->
    exists k : nat,
      digits (S w) n ++ acc = repeat "0"%char k ++ dec_aux fuel n acc /\
      (k + List.length (dec_aux fuel n acc) = S w + List.length acc)%nat.
Proof.
  induction w as [|w IH]; intros fuel n acc Hn Hfuel.
  - destruct fuel as [|f]; [lia|].
    change (10 ^ Z.of_nat 1) with 10 in Hn.
    assert (Hq : n / 10 = 0) by (apply Z.div_small; lia).
    exists 0%nat. simpl. rewrite Hq. simpl. split; reflexivity.
  - destruct fuel as [|f]; [lia|].
    assert (Hpow : 10 ^ Z.of_nat (S (S w)) = 10 * 10 ^ Z.of_nat (S w)).
    { rewrite (Nat2Z.inj_succ (S w)), Z.pow_succ_r by lia. reflexivity. }
    change (digits (S (S w)) n) with
      (digits (S w) (n / 10) ++ [digit_char (n mod 10)]).
    rewrite <- app_assoc. cbn [app].
    cbn [dec_aux]. destruct (n / 10 =? 0) eqn:Hq.
    + apply Z.eqb_eq in Hq. rewrite Hq, digits_zero.
      exists (S w). split; [reflexivity|]. simpl. lia.
    + apply Z.eqb_neq in Hq.
      assert (Hdiv : 0 <= n / 10 < 10 ^ Z.of_nat (S w)).
      { split; [apply Z.div_pos; lia|].
        apply Z.div_lt_upper_bound; lia. }
      assert (Hf : n / 10 < Z.of_nat f).
      { assert (Hbig : 10 <= n).
        { destruct (Z_lt_ge_dec n 10) as [Hlt|Hge]; [|lia].
          rewrite Z.div_small in Hq by lia. congruence. }
        assert (n / 10 < n) by (apply Z.div_lt; lia). lia. }
      destruct (IH f (n / 10) (digit_char (n mod 10) :: acc) Hdiv Hf)
        as [k [Heq Hlen]].
      exists k. split; [exact Heq|]. rewrite Hlen. simpl. lia.
Qed.

Lemma zpad_digits (w : nat) (n : Z) :
  0 <= n < 10 ^ Z.of_nat (S w) -> zpad (S w) n = digits (S w) n.
Proof.
  intros Hn. unfold zpad, dec.
  destruct (dec_aux_digits w (S (Z.to_nat n)) n [] Hn) as [k [Heq Hlen]];
    [lia|].
  rewrite app_nil_r in Heq. rewrite Heq. f_equal. f_equal.
  change (List.length (@nil ascii)) with 0%nat in Hlen. lia.
Qed.

(** The three leading digits of the six-digit microsecond field are the
    digits of the whole milliseconds. *)
Lemma digits_micro_split (us : Z) :
  digits 6 us = digits 3 (us / 1000) ++ digits 3 us.
Proof.
  assert (H : us / 10 / 10 / 10 = us / 1000).
  { rewrite !Z.div_div by lia. reflexivity. }
  cbn [digits]. rewrite H. rewrite <- !app_assoc. reflexivity.
Qed.

Lemma drop_last_app (k : nat) (x y : text) :
  List.length y = k -> drop_last k (x ++ y) = x.
Proof.
  intros Hy. unfold drop_last. rewrite length_app, Hy.
  replace (List.length x + k - k)%nat with (List.length x + 0)%nat by lia.
  rewrite firstn_app_2. simpl. apply app_nil_r.
Qed.

End Timestamp.

Example format_timestamp_sample :
  format_timestamp (mkDatetime 2024 3 1 10 15 30 123456)
  = lit "2024-03-01 10:15:30.123".
Proof. vm_compute. reflexivity. Qed.

(** Truncation, not rounding: 999 microseconds short of the next
    millisecond still shows the current one. *)
Example format_timestamp_no_rounding :
  format_timestamp (mkDatetime 2024 3 1 10 15 30 123999)
  = lit "2024-03-01 10:15:30.123".
Proof. vm_compute. reflexivity. Qed.

(** C5. For every instant (a [datetime] within the ranges the type
    enforces), [format_timestamp] yields [YYYY-MM-DD HH:MM:SS.mmm]: 23
    characters whose last three digits are the microseconds divided by
    1000 and rounded down. *)
Theorem format_timestamp_truncates (t : datetime) :
  valid_datetime t ->
  format_timestamp t = timestamp_layout t /\
  List.length (format_timestamp t) = 23%nat.
Proof.
  intros (Hy & Hm & Hd & HH & HM & HS & Hus).
  assert (E : format_timestamp t = timestamp_layout t).
  { unfold format_timestamp, strftime_ymd_hms_f, timestamp_layout.
    rewrite (zpad_digits 3), !(zpad_digits 1), (zpad_digits 5)
      by (cbn; lia).
    rewrite digits_micro_split, !app_assoc.
    apply drop_last_app, digits_length. }
  split; [exact E|].
  rewrite E. unfold timestamp_layout.
  rewrite !length_app, !digits_length. reflexivity.
Qed.

Lemma format_timestamp_truncates_witness :
  let t := mkDatetime 2024 3 1 10 15 30 123456 in
  format_timestamp t = timestamp_layout t /\
  List.length (format_timestamp t) = 23%nat.
Proof.
  apply (format_timestamp_truncates (mkDatetime 2024 3 1 10 15 30 123456)).
  unfold valid_datetime; simpl; lia.
Defined.

(** ** The frame-rate computation *)

Section Rate.

Lemma py_max_floor (secs : Q) : (epsilon <= py_max secs epsilon)%Q.
Proof.
  unfold py_max, Qlt_bool.
  destruct (Qle_bool epsilon secs) eqn:E; cbn [negb].
  - apply Qle_bool_iff. exact E.
  - apply Qle_refl.
Qed.

Lemma py_max_positive (secs : Q) : (0 < py_max secs epsilon)%Q.
Proof.
  apply Qlt_le_trans with epsilon; [reflexivity | apply py_max_floor].
Qed.

Lemma truediv_nonzero (a b : Q) (w : world) :
  ~ (b == 0)%Q -> truediv a b w = (Ret (a / b)%Q, w).
Proof.
  intros Hb. unfold truediv.
  destruct (Qeq_bool b 0) eqn:E; [|reflexivity].
  apply Qeq_bool_iff in E. contradiction.
Qed.

(** The division in [rate] always goes through. *)
Lemma rate_returns (n : Z) (secs : Q) (w : world) :
  rate n secs w = (Ret (inject_Z n / py_max secs epsilon)%Q, w).
Proof.
  unfold rate. apply truediv_nonzero.
  intros H. pose proof (py_max_positive secs) as Hpos.
  rewrite H in Hpos. discriminate Hpos.
Qed.

End Rate.

(** C4. The frame-rate division never divides by zero: the divisor is at
    least the epsilon 0.001, so for a frame count of at least 1 (it is 1 at
    the first cycle) and any elapsed time the division returns a value, and
    that value is at most [frame_count / 0.001]. *)
Theorem rate_never_divides_by_zero (n : Z) (secs : Q) (w : world) :
  1 <= n ->
  (epsilon <= py_max secs epsilon)%Q /\
  exists q : Q,
    rate n secs w = (Ret q, w) /\
    (q <= inject_Z n / epsilon)%Q.
Proof.
  intros Hn. split; [apply py_max_floor|].
  exists (inject_Z n / py_max secs epsilon)%Q.
  split; [apply rate_returns|].
  apply Qle_shift_div_r; [apply py_max_positive|].
  assert (Hpos : (0 < inject_Z n / epsilon)%Q).
  { apply Qlt_shift_div_l; [reflexivity|].
    rewrite Qmult_0_l. change 0%Q with (inject_Z 0).
    rewrite <- Zlt_Qlt. lia. }
  setoid_replace (inject_Z n) with (inject_Z n / epsilon * epsilon)%Q at 1
    by (field; discriminate).
  apply Qmult_le_l; [exact Hpos | apply py_max_floor].
Qed.

Lemma rate_never_divides_by_zero_witness :
  (epsilon <= py_max 0 epsilon)%Q /\
  exists q : Q,
    rate 1 0 world0 = (Ret q, world0) /\ (q <= inject_Z 1 / epsilon)%Q.
Proof.
  apply (rate_never_divides_by_zero 1 0 world0). lia.
Defined.

(** ** Running the program symbolically *)

(** Unfolding the monad and the straight-line parts of the program. *)
Ltac mstep :=
  cbn [bind ret raise running emit print sys_exit call call_ try_except
       try_finally with_stmt except_Exception set_frame_count get_frame_count
       set_writer get_writer log self_writer frame_count fst snd
       grab overlay overlay_now write elapsed preview waitKey window_visible].

Ltac sstep :=
  cbv beta iota zeta delta
      [bind ret raise running emit print sys_exit call call_ try_except
       try_finally with_stmt except_Exception set_frame_count get_frame_count
       set_writer get_writer log self_writer frame_count fst snd
       select_region VideoWriterContext_init VideoWriterContext_enter
       VideoWriterContext_exit release grabbed picked selection opening
       cycles duration fname_now truetype closing filename fourcc fps
       resolution
       vw_filename vw_fourcc vw_fps vw_resolution vw_isOpened negb
       main_clauses session main world0].

Section Log.

Lemma frames_of_app (a b : list event) :
  frames_of (a ++ b) = frames_of a ++ frames_of b.
Proof.
  induction a as [|e a IH]; [reflexivity|].
  destruct e; simpl; rewrite IH; reflexivity.
Qed.

Lemma filter_none {A} (f : A -> bool) (P : A -> Prop) (l : list A) :
  (forall a, P a -> f a = false) -> Forall P l -> filter f l = [].
Proof.
  intros Hf Hl. induction Hl as [|a l Ha _ IH]; [reflexivity|].
  simpl. rewrite (Hf a Ha). exact IH.
Qed.

Lemma setup_no_release (l : list event) :
  Forall setup_event l -> filter is_release l = [].
Proof. apply filter_none. intros []; simpl; tauto. Qed.

Lemma cycle_no_release (l : list event) :
  Forall cycle_event l -> filter is_release l = [].
Proof. apply filter_none. intros []; simpl; tauto. Qed.

Lemma setup_no_summary (l : list event) :
  Forall setup_event l -> filter is_summary l = [].
Proof. apply filter_none. intros []; simpl; tauto. Qed.

Lemma cycle_no_summary (l : list event) :
  Forall cycle_event l -> filter is_summary l = [].
Proof. apply filter_none. intros []; simpl; tauto. Qed.

Lemma setup_no_frames (l : list event) :
  Forall setup_event l -> frames_of l = [].
Proof.
  intros Hl. induction Hl as [|a l Ha _ IH]; [reflexivity|].
  destruct a; simpl in *; tauto.
Qed.

Lemma setup_no_open (l : list event) (vw : VideoWriter) :
  Forall setup_event l -> ~ In (EvOpen vw) l.
Proof.
  intros Hl Hin. rewrite Forall_forall in Hl. exact (Hl _ Hin).
Qed.

Lemma cycle_no_open (l : list event) (vw : VideoWriter) :
  Forall cycle_event l -> ~ In (EvOpen vw) l.
Proof.
  intros Hl Hin. rewrite Forall_forall in Hl. exact (Hl _ Hin).
Qed.

End Log.

Section Loop.

Ltac close_cycle H evs :=
  injection H as <- <-; mstep; exists evs;
  rewrite <- ?app_assoc, ?app_nil_r;
  repeat split;
  try (repeat constructor; fail); try discriminate;
  try (cbn; f_equal; lia); eauto.

(** One cycle only writes and shows, never touches [self.writer], counts
    every frame it writes, and reaches its stop check only after the frame
    has been written, counted and previewed. *)
Lemma cycle_spec (w h : Z) (c : cycle_env) (wd : world) (n : Z)
    (r : result bool) (wd' : world) :
  frame_count wd = Some n ->
  cycle w h c wd = (r, wd') ->
  exists evs : list event,
    log wd' = log wd ++ evs /\
    self_writer wd' = self_writer wd /\
    Forall cycle_event evs /\
    frame_count wd' = Some (n + Z.of_nat (List.length (frames_of evs))) /\
    r <> Running /\
    (forall b, r = Ret b -> exists f q, evs = [EvWrite f; EvShow q w h]).
Proof.
  intros Hn. destruct wd as [l sw fc]. cbn in Hn. subst fc.
  destruct c as [g t o wr el pv wk vis].
  unfold cycle. mstep.
  destruct g as [e|img]; mstep; [intros H; close_cycle H (@nil event)|].
  destruct o as [e|]; mstep; [intros H; close_cycle H (@nil event)|].
  destruct wr as [e|]; mstep; [intros H; close_cycle H (@nil event)|].
  set (f := mkFrame img (format_timestamp t) (w - 70)).
  destruct el as [e|secs]; mstep; [intros H; close_cycle H [EvWrite f]|].
  unfold bind at 1. rewrite rate_returns. mstep.
  set (q := (inject_Z (n + 1) / py_max secs epsilon)%Q).
  destruct pv as [e|]; mstep; [intros H; close_cycle H [EvWrite f]|].
  destruct wk as [e|k]; mstep;
    [intros H; close_cycle H [EvWrite f; EvShow q w h]|].
  destruct ((Z.land k 255 =? ord_q) || (Z.land k 255 =? 27)); mstep;
    [intros H; close_cycle H [EvWrite f; EvShow q w h]|].
  destruct vis as [e|v]; mstep;
    intros H; close_cycle H [EvWrite f; EvShow q w h].
Qed.

(** The loop as a whole: by induction on the script. *)
Lemma capture_loop_spec (w h : Z) (script : list cycle_env) :
  forall (wd : world) (n : Z) (r : result unit) (wd' : world),
    frame_count wd = Some n ->
    capture_loop w h script wd = (r, wd') ->
    exists evs : list event,
      log wd' = log wd ++ evs /\
      self_writer wd' = self_writer wd /\
      Forall cycle_event evs /\
      frame_count wd' = Some (n + Z.of_nat (List.length (frames_of evs))) /\
      (r = Ret tt -> (1 <= List.length (frames_of evs))%nat).
Proof.
  induction script as [|c rest IH]; intros wd n r wd' Hn Hrun.
  - injection Hrun as <- <-. exists []. rewrite app_nil_r.
    repeat split; try constructor; try discriminate.
    rewrite Hn. cbn. f_equal. lia.
  - cbn [capture_loop] in Hrun. unfold bind at 1 in Hrun.
    destruct (cycle w h c wd) as [rc wc] eqn:Hc.
    destruct (cycle_spec w h c wd n rc wc Hn Hc)
      as (evs & Hlog & Hsw & Hev & Hfc & Hrun' & Hret).
    destruct rc as [b|e|]; [|injection Hrun as <- <-|congruence].
    + destruct (Hret b eq_refl) as (f & q & ->).
      destruct b.
      * injection Hrun as <- <-. exists [EvWrite f; EvShow q w h].
        repeat split; auto.
      * destruct (IH wc _ r wd' Hfc Hrun)
          as (evs' & Hlog' & Hsw' & Hev' & Hfc' & Hret').
        exists ([EvWrite f; EvShow q w h] ++ evs').
        rewrite Hlog', Hlog, Hsw', Hsw, Hfc', <- app_assoc.
        repeat split.
        -- apply Forall_app; split; assumption.
        -- f_equal. rewrite frames_of_app, length_app. cbn. lia.
        -- intros _. cbn. lia.
    + exists evs. repeat split; auto. discriminate.
Qed.

(** A cycle in which the grabber raises or a stop key is read does not
    continue the loop. *)
Lemma cycle_ends (w h : Z) (c : cycle_env) (wd : world) (n : Z) :
  frame_count wd = Some n ->
  ends_cycle c ->
  fst (cycle w h c wd) <> Ret false.
Proof.
  intros Hn Hend. destruct wd as [l sw fc]. cbn in Hn. subst fc.
  destruct c as [g t o wr el pv wk vis].
  unfold ends_cycle in Hend. cbn [grab waitKey] in Hend.
  unfold cycle. mstep.
  destruct g as [e|img]; mstep; [discriminate|].
  destruct Hend as [[e He]|(k & Hk & Hkey)]; [discriminate He|]. subst wk.
  destruct o as [e|]; mstep; [discriminate|].
  destruct wr as [e|]; mstep; [discriminate|].
  destruct el as [e|secs]; mstep; [discriminate|].
  unfold bind at 1. rewrite rate_returns. mstep.
  destruct pv as [e|]; mstep; [discriminate|].
  destruct Hkey as [-> | ->]; cbn; discriminate.
Qed.

(** A script that contains such a cycle brings the loop to an end. *)
Lemma loop_ends (w h : Z) (script : list cycle_env) :
  forall (wd : world) (n : Z),
    frame_count wd = Some n ->
    Exists ends_cycle script ->
    fst (capture_loop w h script wd) <> Running.
Proof.
  induction script as [|c rest IH]; intros wd n Hn Hex.
  - inversion Hex.
  - cbn [capture_loop]. unfold bind at 1.
    destruct (cycle w h c wd) as [rc wc] eqn:Hc.
    destruct (cycle_spec w h c wd n rc wc Hn Hc)
      as (evs & _ & _ & _ & Hfc & Hnr & _).
    destruct rc as [[|]|e|]; cbn [fst]; try discriminate; [|congruence].
    apply (IH wc _ Hfc).
    inversion Hex as [c' rest' Hhead | c' rest' Htail]; subst;
      [|assumption].
    exfalso. apply (cycle_ends w h c wd n Hn Hhead). rewrite Hc. reflexivity.
Qed.

End Loop.

Section Session.

Ltac setup_events :=
  lazymatch goal with
  | |- Forall setup_event _ => repeat (constructor; try exact I)
  | _ => idtac
  end.

Ltac close_session H := injection H as <- <-; rewrite <- ?app_assoc.

Ltac no_opening :=
  let rg := fresh in let ok := fresh in let Hs := fresh in
  intros rg ok Hs;
  first [ sstep; discriminate
        | specialize (Hs world0); revert Hs; sstep; discriminate ].

Ltac shape_with lem rg Hsel :=
  first [ eapply lem with (region := rg) (pre := [_; _; _; _])
        | eapply lem with (region := rg) (pre := [_; _; _]) ];
  try apply Hsel; try assumption; setup_events.

Ltac session_tail op rg Hsel :=
  destruct op as [e|ok]; sstep;
  [ destruct e; sstep; intros H; close_session H;
    (apply ended_before_open; [setup_events | no_opening])
  | destruct ok; sstep;
    [ destruct (capture_loop _ _ _ _) as [rl [ll swl fcl]] eqn:Hloop;
      pose proof Hloop as Hexit;
      apply capture_loop_spec with (n := 0) in Hloop; [|reflexivity];
      destruct Hloop as (evs & Hlog & Hsw & Hev & Hfc & Hret);
      cbn [log self_writer frame_count] in Hlog, Hsw, Hfc; subst ll swl fcl;
      rewrite Z.add_0_l;
      destruct rl as [[]|e|]; cbv beta iota;
      [ rewrite rate_returns; intros H; close_session H;
        shape_with ended_by_stop rg Hsel; auto
      | intros H; close_session H;
        shape_with ended_by_exception rg Hsel
      | intros H; close_session H;
        shape_with still_running rg Hsel;
        intros Hex; cbn [cycles] in Hex;
        match type of Hexit with
        | capture_loop ?w ?h ?cs ?wd = _ =>
            apply (loop_ends w h cs wd 0 eq_refl) in Hex
        end;
        rewrite Hexit in Hex; exact (Hex eq_refl) ]
    | intros H; close_session H;
      shape_with ended_open_failed rg Hsel ] ].

(** Every run of the [try] body of [main] has one of the five shapes. *)
Lemma session_cases (env : session_env) (r : result unit) (w : world) :
  session env world0 = (r, w) -> session_shape env r w.
Proof.
  destruct env as [[g p] t tt op cs d cl].
  sstep.
  destruct g as [e|[rows cols]]; sstep.
  { destruct e; sstep; intros H; close_session H;
      (apply ended_before_open; [setup_events | no_opening]). }
  destruct p as [e|[[[x y] rw] rh]]; sstep.
  { destruct e; sstep; intros H; close_session H;
      (apply ended_before_open; [setup_events | no_opening]). }
  destruct (rect_eqb (x, y, rw, rh) (0, 0, 0, 0)) eqn:Hroi; sstep.
  - assert (Hsel : forall op',
              selected (mkSessionEnv (mkSelectEnv (inr (rows, cols))
                (inr (x, y, rw, rh))) t tt op' cs d cl) (0, 0, cols, rows)).
    { intros op' w0. sstep. rewrite Hroi. reflexivity. }
    session_tail op (0, 0, cols, rows) Hsel.
  - assert (Hsel : forall op',
              selected (mkSessionEnv (mkSelectEnv (inr (rows, cols))
                (inr (x, y, rw, rh))) t tt op' cs d cl)
                (x, y, x + rw, y + rh)).
    { intros op' w0. sstep. rewrite Hroi. reflexivity. }
    session_tail op (x, y, x + rw, y + rh) Hsel.
Qed.

(** [main] adds the handler's line and the final [destroyAllWindows],
    whose exception, if it raises one, is what [main] raises. *)
Lemma main_of_session (env : session_env) (r : result unit) (w : world) :
  session env world0 = (r, w) ->
  main env world0
  = (closed (closing env) (fst (main_outcome r w)), snd (main_outcome r w)).
Proof.
  intros H. unfold main, try_finally, try_except. rewrite H.
  destruct r as [[]|[| |]|]; destruct (closing env); reflexivity.
Qed.

Lemma closed_running (cl : option exn) (r : result unit) :
  closed cl r = Running <-> r = Running.
Proof.
  destruct r as [[]|e|], cl as [x|]; cbn; split;
    (discriminate || reflexivity || congruence).
Qed.

Lemma selected_unique (env : session_env) (r1 r2 : rect) :
  selected env r1 -> selected env r2 -> r1 = r2.
Proof.
  intros H1 H2. specialize (H1 world0). specialize (H2 world0).
  rewrite H1 in H2. injection H2 as ->. reflexivity.
Qed.

End Session.

Section Outcome.

(** What [main] appends after its [try] body is over touches neither the
    encoder nor the counter. *)
Lemma main_outcome_log (r r' : result unit) (ws w' : world) :
  main_outcome r ws = (r', w') ->
  exists tail : list event,
    log w' = log ws ++ tail /\
    Forall setup_event tail /\
    self_writer w' = self_writer ws /\
    frame_count w' = frame_count ws /\
    (r' = Running -> r = Running).
Proof.
  destruct r as [[]|[|msg|msg]|]; unfold main_outcome, logged;
    intros H; injection H as <- <-; cbn [log self_writer frame_count].
  - exists [EvDestroyAllWindows]. repeat split; try discriminate.
    repeat constructor.
  - exists [aborted_message; EvDestroyAllWindows].
    rewrite <- app_assoc. repeat split; try discriminate.
    repeat constructor.
  - exists [EvDestroyAllWindows]. repeat split; try discriminate.
    repeat constructor.
  - exists [EvDestroyAllWindows]. repeat split; try discriminate.
    repeat constructor.
  - exists []. rewrite app_nil_r. repeat split. constructor.
Qed.

(** A run of [main] is a run of its [try] body followed by such a tail. *)
Lemma main_run (env : session_env) (r : result unit) (w : world) :
  main env world0 = (r, w) ->
  exists (rs : result unit) (ws : world) (tail : list event),
    session env world0 = (rs, ws) /\
    session_shape env rs ws /\
    (rs = Running -> r = Running) /\
    log w = log ws ++ tail /\
    Forall setup_event tail /\
    self_writer w = self_writer ws /\
    frame_count w = frame_count ws /\
    (r = Running -> rs = Running).
Proof.
  intros Hmain.
  destruct (session env world0) as [rs ws] eqn:Hs.
  rewrite (main_of_session _ _ _ Hs) in Hmain.
  destruct (main_outcome rs ws) as [r0 w0] eqn:Hout.
  cbn [fst snd] in Hmain. injection Hmain as <- <-.
  destruct (main_outcome_log _ _ _ _ Hout) as (tail & H1 & H2 & H3 & H4 & H5).
  exists rs, ws, tail. repeat split; auto using session_cases.
  - intros ->. cbn in Hout. injection Hout as <- _. reflexivity.
  - intros Hr. apply closed_running in Hr. auto.
Qed.

(** The session comes to an end as soon as the script holds a cycle in
    which the grabber raises or a stop key is read. *)
Lemma session_ends (env : session_env) :
  Exists ends_cycle (cycles env) -> fst (main env world0) <> Running.
Proof.
  intros Hex Hr.
  destruct (main env world0) as [r w] eqn:Hmain. cbn [fst] in Hr.
  destruct (main_run env r w Hmain)
    as (rs & ws & tail & _ & Hshape & _ & _ & _ & _ & _ & Hrun).
  specialize (Hrun Hr). subst rs.
  inversion Hshape as [ | | region pre evs _ _ _ Hno | | ]; subst.
  exact (Hno Hex).
Qed.

Lemma release_count_logged (l tail : list event) :
  Forall setup_event tail ->
  List.length (filter is_release (l ++ tail))
  = List.length (filter is_release l).
Proof.
  intros Ht. rewrite filter_app, (setup_no_release tail Ht), app_nil_r.
  reflexivity.
Qed.

Lemma open_in_logged (l tail : list event) (vw : VideoWriter) :
  Forall setup_event tail -> In (EvOpen vw) (l ++ tail) -> In (EvOpen vw) l.
Proof.
  intros Ht Hin. apply in_app_or in Hin. destruct Hin as [Hin|Hin]; auto.
  exfalso. exact (setup_no_open tail vw Ht Hin).
Qed.

(** Where an [EvOpen] can sit in a log made of setup events, one opening
    and cycle events. *)
Lemma open_in_session_log (pre evs post : list event) (v vw : VideoWriter) :
  Forall setup_event pre ->
  Forall cycle_event evs ->
  Forall (fun e => forall x, e <> EvOpen x) post ->
  In (EvOpen vw) (pre ++ EvOpen v :: evs ++ post) -> vw = v.
Proof.
  intros Hpre Hevs Hpost Hin.
  apply in_app_or in Hin. destruct Hin as [Hin|[Heq|Hin]].
  - exfalso. exact (setup_no_open pre vw Hpre Hin).
  - injection Heq as ->. reflexivity.
  - apply in_app_or in Hin. destruct Hin as [Hin|Hin].
    + exfalso. exact (cycle_no_open evs vw Hevs Hin).
    + rewrite Forall_forall in Hpost. exfalso.
      exact (Hpost _ Hin vw eq_refl).
Qed.

End Outcome.

(** ** The encoder is released once *)

(** C1. In every session that has ended (by a stop signal, by a
    [KeyboardInterrupt] or by any other exception) and in which the encoder
    was opened successfully, [release()] has been called exactly once. *)
Theorem encoder_released_exactly_once
    (env : session_env) (r : result unit) (w : world) :
  main env world0 = (r, w) ->
  r <> Running ->
  encoder_opened w ->
  release_count w = 1%nat.
Proof.
  intros Hmain Hend (vw & Hin & Hok).
  destruct (main_run env r w Hmain)
    as (rs & ws & tail & _ & Hshape & Hout & Hlog & Htail & _ & _ & _).
  unfold release_count. rewrite Hlog in *.
  rewrite (release_count_logged _ _ Htail).
  apply open_in_logged in Hin; [|exact Htail].
  destruct Hshape as [e pre Hpre _ | region pre msg _ Hpre
                     | region pre evs _ Hpre Hevs _
                     | region pre evs _ Hpre Hevs _
                     | region pre evs e _ Hpre Hevs];
    cbn [log] in *.
  - exfalso. exact (setup_no_open pre vw Hpre Hin).
  - apply (open_in_session_log pre [] [] _ vw Hpre) in Hin;
      [subst vw; discriminate Hok | constructor | constructor].
  - exfalso. apply Hend. apply Hout. reflexivity.
  - rewrite filter_app. cbn [filter is_release].
    rewrite filter_app, (setup_no_release pre Hpre),
      (cycle_no_release evs Hevs). reflexivity.
  - rewrite filter_app. cbn [filter is_release].
    rewrite filter_app, (setup_no_release pre Hpre),
      (cycle_no_release evs Hevs). reflexivity.
Qed.

Lemma encoder_released_exactly_once_witness :
  fst (main env_interrupt world0) <> Running /\
  encoder_opened (snd (main env_interrupt world0)) /\
  release_count (snd (main env_interrupt world0)) = 1%nat.
Proof.
  assert (Hend : fst (main env_interrupt world0) <> Running)
    by (vm_compute; discriminate).
  assert (Hopen : encoder_opened (snd (main env_interrupt world0))).
  { eexists. split; [vm_compute; do 3 right; left; reflexivity|reflexivity]. }
  split; [exact Hend|]. split; [exact Hopen|].
  apply (encoder_released_exactly_once env_interrupt
           (fst (main env_interrupt world0))).
  - apply surjective_pairing.
  - exact Hend.
  - exact Hopen.
Defined.

(** The three ways out of the loop, on the sample sessions. *)
Example released_once_after_stop :
  release_count (snd (main env_stop world0)) = 1%nat.
Proof. vm_compute. reflexivity. Qed.

Example released_once_after_interrupt :
  release_count (snd (main env_interrupt world0)) = 1%nat.
Proof. vm_compute. reflexivity. Qed.

Example released_once_after_error :
  release_count (snd (main env_error world0)) = 1%nat.
Proof. vm_compute. reflexivity. Qed.

(** ** The summary *)

Section Summary.

Lemma frames_of_session_log (pre evs post : list event) (v : VideoWriter) :
  Forall setup_event pre ->
  frames_of post = [] ->
  frames_of (pre ++ EvOpen v :: evs ++ post) = frames_of evs.
Proof.
  intros Hpre Hpost.
  rewrite frames_of_app, (setup_no_frames pre Hpre). cbn [app frames_of].
  rewrite frames_of_app, Hpost. apply app_nil_r.
Qed.




End Summary.




(** ** Region selection *)

(** C3, as the code has it.  A cancelled selection, which [cv2.selectROI]
    reports as (0,0,0,0), yields the full-display rectangle; a drawn
    rectangle of positive width and height is returned as
    (x, y, x+w, y+h).  On a display of positive size the region returned
    in these two cases has the positive size of the display, respectively
    of the drawn rectangle. *)
Theorem select_region_fallback
    (rows cols x y rw rh : Z) (w : world) :
  0 < rows -> 0 < cols ->
  (x, y, rw, rh) = (0, 0, 0, 0) \/ (0 < rw /\ 0 < rh) ->
  exists region : rect,
    fst (select_region (mkSelectEnv (inr (rows, cols)) (inr (x, y, rw, rh))) w)
    = Ret region /\
    ((x, y, rw, rh) = (0, 0, 0, 0) ->
     region = (0, 0, cols, rows) /\ region_size region = (cols, rows)) /\
    (0 < rw /\ 0 < rh ->
     region = (x, y, x + rw, y + rh) /\ region_size region = (rw, rh)) /\
    0 < fst (region_size region) /\ 0 < snd (region_size region).
Proof.
  intros Hrows Hcols Hcase. sstep.
  destruct (rect_eqb (x, y, rw, rh) (0, 0, 0, 0)) eqn:Hroi.
  - assert (Hz : (x, y, rw, rh) = (0, 0, 0, 0)).
    { unfold rect_eqb in Hroi.
      apply andb_prop in Hroi as [Hroi H4].
      apply andb_prop in Hroi as [Hroi H3].
      apply andb_prop in Hroi as [H1 H2].
      apply Z.eqb_eq in H1, H2, H3, H4. congruence. }
    exists (0, 0, cols, rows). injection Hz as -> -> -> ->.
    cbn [region_size fst snd].
    repeat split; try (intros; lia); try (f_equal; lia).
  - assert (Hnz : (x, y, rw, rh) <> (0, 0, 0, 0)).
    { intros Hz. injection Hz as -> -> -> ->. discriminate Hroi. }
    destruct Hcase as [Hz|[Hw Hh]]; [contradiction|].
    exists (x, y, x + rw, y + rh). cbn [region_size fst snd].
    repeat split; try contradiction; try lia; try (f_equal; lia).
Qed.

Lemma select_region_fallback_witness :
  exists region : rect,
    fst (select_region (mkSelectEnv (inr (1080, 1920)) (inr (0, 0, 0, 0)))
           world0)
    = Ret region /\
    ((0, 0, 0, 0) = (0, 0, 0, 0) ->
     region = (0, 0, 1920, 1080) /\ region_size region = (1920, 1080)) /\
    (0 < 0 /\ 0 < 0 ->
     region = (0, 0, 0 + 0, 0 + 0) /\ region_size region = (0, 0)) /\
    0 < fst (region_size region) /\ 0 < snd (region_size region).
Proof.
  apply (select_region_fallback 1080 1920 0 0 0 0 world0).
  - lia.
  - lia.
  - left. reflexivity.
Defined.

(** C3, as stated, fails: a click without a drag at (100,100) is a
    selection of zero area, and [select_region] returns the zero-size
    region (100,100,100,100) instead of the full display. *)
Lemma zero_area_selection_returned :
  fst (select_region click_selection world0) = Ret (100, 100, 100, 100) /\
  (100, 100, 100, 100) <> (0, 0, 1920, 1080) /\
  region_size (100, 100, 100, 100) = (0, 0).
Proof.
  repeat split. discriminate.
Qed.

(** ** The resolution bound to the encoder *)

Section Resolution.

(** Every encoder a session constructs is the one for the selected
    region. *)
Lemma shape_writers (env : session_env) (rs : result unit) (ws : world)
    (region : rect) (vw : VideoWriter) :
  session_shape env rs ws ->
  selected env region ->
  In (EvOpen vw) (log ws) \/ self_writer ws = Some vw ->
  exists ok, vw = writer_for env region ok.
Proof.
  intros Hshape Hsel Hvw.
  destruct Hshape as [e pre Hpre _ | region' pre msg Hsel' Hpre
                     | region' pre evs Hsel' Hpre Hevs _
                     | region' pre evs Hsel' Hpre Hevs _
                     | region' pre evs e Hsel' Hpre Hevs];
    cbn [log self_writer] in Hvw;
    try rewrite (selected_unique env region' region Hsel' Hsel) in *.
  - destruct Hvw as [Hin|Hsw]; [|discriminate].
    exfalso. exact (setup_no_open pre vw Hpre Hin).
  - destruct Hvw as [Hin|Hsw]; [|injection Hsw as <-; eauto].
    apply (open_in_session_log pre [] [] _ vw Hpre) in Hin;
      [eauto | constructor | constructor].
  - destruct Hvw as [Hin|Hsw]; [|injection Hsw as <-; eauto].
    rewrite <- (app_nil_r evs) in Hin.
    apply (open_in_session_log pre evs [] _ vw Hpre Hevs) in Hin;
      [eauto | constructor].
  - destruct Hvw as [Hin|Hsw]; [|injection Hsw as <-; eauto].
    apply (open_in_session_log pre evs _ _ vw Hpre Hevs) in Hin; [eauto|].
    repeat constructor; discriminate.
  - destruct Hvw as [Hin|Hsw]; [|injection Hsw as <-; eauto].
    apply (open_in_session_log pre evs _ _ vw Hpre Hevs) in Hin; [eauto|].
    repeat constructor; discriminate.
Qed.

(** Once the constructor has returned, the log shows the encoder. *)
Lemma shape_opens (env : session_env) (rs : result unit) (ws : world)
    (region : rect) (ok : bool) :
  session_shape env rs ws ->
  selected env region ->
  opening env = inr ok ->
  exists vw, In (EvOpen vw) (log ws).
Proof.
  intros Hshape Hsel Hop.
  destruct Hshape as [e pre Hpre Hno | region' pre msg _ _
                     | region' pre evs _ _ _ _
                     | region' pre evs _ _ _ _
                     | region' pre evs e _ _ _]; cbn [log].
  - exfalso. exact (Hno region ok Hsel Hop).
  - eexists. apply in_or_app. right. left. reflexivity.
  - eexists. apply in_or_app. right. left. reflexivity.
  - eexists. apply in_or_app. right. left. reflexivity.
  - eexists. apply in_or_app. right. left. reflexivity.
Qed.

End Resolution.

(** C6. When [select_region] returns a valid region (x1,y1,x2,y2), with
    x2 > x1 and y2 > y1, every encoder the session constructs, and the one
    kept in [self.writer], is bound to the resolution (x2-x1, y2-y1), whose
    components are positive; and the session does construct one as soon as
    the [cv2.VideoWriter] constructor returns. *)
Theorem encoder_resolution_is_region_size
    (env : session_env) (x1 y1 x2 y2 : Z) (r : result unit) (w : world) :
  selected env (x1, y1, x2, y2) ->
  x1 < x2 -> y1 < y2 ->
  main env world0 = (r, w) ->
  (forall vw,
     In (EvOpen vw) (log w) \/ self_writer w = Some vw ->
     vw_resolution vw = (x2 - x1, y2 - y1) /\
     0 < fst (vw_resolution vw) /\ 0 < snd (vw_resolution vw)) /\
  (forall ok, opening env = inr ok -> exists vw, In (EvOpen vw) (log w)).
Proof.
  intros Hsel Hx Hy Hmain.
  destruct (main_run env r w Hmain)
    as (rs & ws & tail & _ & Hshape & _ & Hlog & Htail & Hsw & _ & _).
  split.
  - intros vw Hvw.
    assert (Hvw' : In (EvOpen vw) (log ws) \/ self_writer ws = Some vw).
    { destruct Hvw as [Hin|Hw]; [left|right; congruence].
      rewrite Hlog in Hin. exact (open_in_logged _ _ _ Htail Hin). }
    destruct (shape_writers env rs ws _ vw Hshape Hsel Hvw') as [ok ->].
    cbn [writer_for vw_resolution region_size fst snd].
    repeat split; lia.
  - intros ok Hop.
    destruct (shape_opens env rs ws _ ok Hshape Hsel Hop) as [vw Hin].
    exists vw. rewrite Hlog. apply in_or_app. left. exact Hin.
Qed.

Lemma encoder_resolution_is_region_size_witness :
  (forall vw,
     In (EvOpen vw) (log (snd (main env_stop world0))) \/
     self_writer (snd (main env_stop world0)) = Some vw ->
     vw_resolution vw = (500 - 100, 400 - 100) /\
     0 < fst (vw_resolution vw) /\ 0 < snd (vw_resolution vw)) /\
  (forall ok, opening env_stop = inr ok ->
     exists vw, In (EvOpen vw) (log (snd (main env_stop world0)))).
Proof.
  apply (encoder_resolution_is_region_size env_stop 100 100 500 400
           (fst (main env_stop world0))).
  - intros w. reflexivity.
  - lia.
  - lia.
  - apply surjective_pairing.
Defined.

(** The documented scenario: region (100,100)-(500,400), three cycles,
    then stop. *)
Example scenario_three_cycles :
  self_writer (snd (main env_stop world0))
  = Some (mkVideoWriter (lit "screen_rec_20240301_101530.mp4") (lit "mp4v")
            60 (400, 300) false) /\
  frame_count (snd (main env_stop world0)) = Some 3 /\
  List.length (frames_written (snd (main env_stop world0))) = 3%nat.
Proof. vm_compute. repeat split. Qed.

(** ** Exit status *)

Section Exit.

Lemma run_of_session (env : session_env) (rs : result unit) (ws : world) :
  session env world0 = (rs, ws) ->
  run env
  = (interpreter_exit (closed (closing env) (fst (main_outcome rs ws))),
     snd (main_outcome rs ws)).
Proof.
  intros Hs. unfold run. rewrite (main_of_session env rs ws Hs).
  reflexivity.
Qed.

Lemma selection_failure_exit (env : session_env) (msg : text) :
  selection_fails env msg ->
  fst (session env world0)
  = Raise (SystemExit (lit "Region selection failed: " ++ msg)).
Proof.
  destruct env as [[g p] t tt op cs d cl]. unfold selection_fails.
  cbn [selection grabbed picked].
  intros [-> | (shape & -> & ->)]; reflexivity.
Qed.

Lemma open_failure_exit (env : session_env) (msg : text) :
  open_fails env msg ->
  fst (session env world0)
  = Raise (SystemExit (lit "VideoWriter Error: " ++ msg)).
Proof.
  destruct env as [[g p] t tt op cs d cl]. unfold open_fails.
  cbn [opening fname_now].
  intros [[region Hsel] Hop]. specialize (Hsel world0). revert Hsel.
  sstep.
  destruct g as [e|[rows cols]]; [destruct e; discriminate|].
  destruct p as [e|[[[x y] rw] rh]]; [destruct e; discriminate|].
  intros _.
  destruct (rect_eqb (x, y, rw, rh) (0, 0, 0, 0));
    destruct Hop as [-> | [-> ->]]; reflexivity.
Qed.

End Exit.

(** The documented scenarios: a failing encoder and an interrupt. *)
Example scenario_encoder_open_fails :
  fst (run (mkSessionEnv sample_selection sample_instant None (inr false)
              [] 0 None))
  = Some (mkExit 1
            (lit "VideoWriter Error: Failed to initialize video writer for screen_rec_20240301_101530.mp4")).
Proof. vm_compute. reflexivity. Qed.

Example scenario_interrupt :
  fst (run env_interrupt) = Some (mkExit 0 []) /\
  List.length (frames_written (snd (run env_interrupt))) = 2%nat /\
  release_count (snd (run env_interrupt)) = 1%nat.
Proof. vm_compute. repeat split. Qed.

(** ** Frames and the counter *)

(** C8. A cycle reaches its stop check only after its frame has been
    written to the encoder and counted (and previewed); so when the loop is
    left by the stop signal at least one more frame has been written and
    counted than when it was entered, and a session that ends by a graceful
    stop has [frame_count >= 1]. *)
Theorem stop_check_follows_write :
  (forall (w h : Z) (c : cycle_env) (wd wd' : world) (n : Z) (stop : bool),
     frame_count wd = Some n ->
     cycle w h c wd = (Ret stop, wd') ->
     exists f q,
       log wd' = log wd ++ [EvWrite f; EvShow q w h] /\
       frame_count wd' = Some (n + 1)) /\
  (forall (w h : Z) (script : list cycle_env) (wd wd' : world) (n : Z),
     frame_count wd = Some n ->
     capture_loop w h script wd = (Ret tt, wd') ->
     exists m,
       frame_count wd' = Some m /\ n + 1 <= m /\
       (List.length (frames_written wd) + 1
        <= List.length (frames_written wd'))%nat) /\
  (forall (env : session_env) (ws : world),
     session env world0 = (Ret tt, ws) ->
     exists m,
       frame_count ws = Some m /\ 1 <= m /\
       (1 <= List.length (frames_written ws))%nat).
Proof.
  repeat split.
  - intros w h c wd wd' n stop Hn Hc.
    destruct (cycle_spec w h c wd n _ _ Hn Hc)
      as (evs & Hlog & _ & _ & Hfc & _ & Hret).
    destruct (Hret stop eq_refl) as (f & q & ->).
    exists f, q. split; assumption.
  - intros w h script wd wd' n Hn Hloop.
    destruct (capture_loop_spec w h script wd n _ _ Hn Hloop)
      as (evs & Hlog & _ & _ & Hfc & Hret).
    specialize (Hret eq_refl).
    exists (n + Z.of_nat (List.length (frames_of evs))).
    unfold frames_written. rewrite Hlog, frames_of_app, length_app.
    repeat split; [assumption | lia | lia].
  - intros env ws Hs.
    pose proof (session_cases env _ _ Hs) as Hshape.
    inversion Hshape as [ | | | region pre evs Hsel Hpre Hevs Hone | ];
      subst.
    exists (Z.of_nat (List.length (frames_of evs))).
    unfold frames_written. cbn [log frame_count].
    rewrite frames_of_session_log by (assumption || reflexivity).
    repeat split; lia.
Qed.

Lemma stop_check_follows_write_witness :
  exists m,
    frame_count (snd (session env_stop world0)) = Some m /\ 1 <= m /\
    (1 <= List.length (frames_written (snd (session env_stop world0))))%nat.
Proof.
  destruct stop_check_follows_write as (_ & _ & Hsession).
  apply (Hsession env_stop).
  vm_compute. reflexivity.
Defined.



(** ** [__exit__] lets exceptions through *)

Section Exit_protocol.

Lemma exit_returns_false (exc : option exn) (w : world) :
  exists w',
    VideoWriterContext_exit exc w = (Ret false, w') /\
    log w' = log w ++ release_events w ++ report_events exc.
Proof.
  destruct w as [l [vw|] fc]; destruct exc as [e|];
    eexists; (split; [reflexivity|]);
    cbn [log release_events report_events self_writer app];
    rewrite <- ?app_assoc, ?app_nil_r; reflexivity.
Qed.

End Exit_protocol.

(** C10. [__exit__] always returns a false value, after releasing the
    writer (when there is one) and printing the exception (when there is
    one).  So an exception raised in the body of the [with] leaves the
    [with] statement as the same exception, with the release and the line
    of [__exit__] logged first; and in [main] the handler's output and the
    final clean-up come after the release, [main] ending as the handler has
    it unless the final clean-up raises an exception of its own. *)
Theorem exit_never_suppresses :
  (forall (exc : option exn) (w : world),
     exists w',
       VideoWriterContext_exit exc w = (Ret false, w') /\
       log w' = log w ++ release_events w ++ report_events exc) /\
  (forall (R : Type) (enter : M R) (body : R -> M unit)
          (w0 w1 w2 : world) (r : R) (e : exn),
     enter w0 = (Ret r, w1) ->
     body r w1 = (Raise e, w2) ->
     exists w3,
       with_stmt enter VideoWriterContext_exit body w0 = (Raise e, w3) /\
       log w3 = log w2 ++ release_events w2 ++ [exit_message e]) /\
  (forall (env : session_env) (e : exn) (ws : world),
     session env world0 = (Raise e, ws) ->
     encoder_opened ws ->
     exists before,
       log ws = before ++ [EvRelease; exit_message e] /\
       fst (main env world0) = closed (closing env) (handler_result e) /\
       log (snd (main env world0))
       = before ++ [EvRelease; exit_message e] ++ handler_events e
         ++ [EvDestroyAllWindows]).
Proof.
  split; [exact exit_returns_false | split].
  - intros R enter body w0 w1 w2 r e Henter Hbody.
    destruct (exit_returns_false (Some e) w2) as (w3 & Hexit & Hlog).
    exists w3. split; [|exact Hlog].
    unfold with_stmt, bind. rewrite Henter, Hbody, Hexit. reflexivity.
  - intros env e ws Hs (vw & Hin & Hok).
    rewrite (main_of_session env _ _ Hs).
    pose proof (session_cases env _ _ Hs) as Hshape.
    inversion Hshape as [ e' pre Hpre _ | region pre msg _ Hpre | |
                        | region pre evs e' _ Hpre Hevs ]; subst;
      cbn [log] in Hin.
    + exfalso. exact (setup_no_open pre vw Hpre Hin).
    + apply (open_in_session_log pre [] [] _ vw Hpre) in Hin;
        [subst vw; discriminate Hok | constructor | constructor].
    + exists (pre ++ EvOpen (writer_for env region true) :: evs).
      cbn [log].
      split; [rewrite <- app_assoc; reflexivity|].
      destruct e as [|msg|msg];
        unfold main_outcome, logged, handler_result, handler_events;
        cbn [fst snd log];
        (split; [reflexivity|]);
        repeat (rewrite <- app_assoc; cbn [app]); reflexivity.
Qed.

Lemma exit_never_suppresses_witness :
  encoder_opened (snd (session env_interrupt world0)) /\
  exists before,
    log (snd (session env_interrupt world0))
    = before ++ [EvRelease; exit_message KeyboardInterrupt] /\
    fst (main env_interrupt world0) = handler_result KeyboardInterrupt /\
    log (snd (main env_interrupt world0))
    = before ++ [EvRelease; exit_message KeyboardInterrupt]
      ++ handler_events KeyboardInterrupt ++ [EvDestroyAllWindows].
Proof.
  assert (Hopen : encoder_opened (snd (session env_interrupt world0))).
  { eexists. split; [vm_compute; do 3 right; left; reflexivity|reflexivity]. }
  split; [exact Hopen|].
  destruct exit_never_suppresses as (_ & _ & Hmain).
  apply (Hmain env_interrupt KeyboardInterrupt
           (snd (session env_interrupt world0))).
  - vm_compute. reflexivity.
  - exact Hopen.
Defined.

(** ** The loop follows its script *)

Section Script.

Lemma land_255 (k : Z) : Z.land k 255 = k mod 256.
Proof.
  change 255 with (Z.ones 8). rewrite Z.land_ones by lia. reflexivity.
Qed.

Lemma stop_key_test (k : Z) :
  (Z.land k 255 =? ord_q) || (Z.land k 255 =? 27) = stop_key k.
Proof. rewrite land_255. reflexivity. Qed.

Ltac close_run evs :=
  exists evs; cbn [log self_writer frame_count];
  rewrite <- ?app_assoc, ?app_nil_r, ?Z.add_0_r;
  repeat split; repeat constructor.

(** One cycle does what [cycle_result] and [cycle_written] say, and leaves
    [self.writer] alone. *)
Lemma cycle_run (w h : Z) (c : cycle_env) (wd : world) (n : Z) :
  frame_count wd = Some n ->
  exists evs : list event,
    cycle w h c wd
    = (cycle_result c,
       mkWorld (log wd ++ evs) (self_writer wd)
         (Some (n + Z.of_nat (List.length (frames_of evs))))) /\
    Forall cycle_event evs /\
    frames_of evs = written_frames (cycle_written w c).
Proof.
  intros Hn. destruct wd as [l sw fc]. cbn in Hn. subst fc.
  destruct c as [g t o wr el pv wk vis].
  unfold cycle, cycle_result, cycle_written. mstep.
  destruct g as [e|img]; mstep; [close_run (@nil event)|].
  destruct o as [e|]; mstep; [close_run (@nil event)|].
  destruct wr as [e|]; mstep; [close_run (@nil event)|].
  set (f := mkFrame img (format_timestamp t) (w - 70)).
  destruct el as [e|secs]; mstep; [close_run [EvWrite f]|].
  unfold bind at 1. rewrite rate_returns. mstep.
  set (q := (inject_Z (n + 1) / py_max secs epsilon)%Q).
  destruct pv as [e|]; mstep; [close_run [EvWrite f]|].
  destruct wk as [e|k]; mstep; [close_run [EvWrite f; EvShow q w h]|].
  rewrite stop_key_test.
  destruct (stop_key k); mstep; [close_run [EvWrite f; EvShow q w h]|].
  destruct vis as [e|v]; mstep; close_run [EvWrite f; EvShow q w h].
Qed.

(** The loop does what [loop_result] and [loop_frames] say. *)
Lemma loop_run (w h : Z) (script : list cycle_env) :
  forall (wd : world) (n : Z),
    frame_count wd = Some n ->
    exists evs : list event,
      capture_loop w h script wd
      = (loop_result script,
         mkWorld (log wd ++ evs) (self_writer wd)
           (Some (n + Z.of_nat (List.length (frames_of evs))))) /\
      Forall cycle_event evs /\
      frames_of evs = loop_frames w script.
Proof.
  induction script as [|c rest IH]; intros wd n Hn.
  - exists []. destruct wd as [l sw fc]. cbn in Hn. subst fc.
    cbn. rewrite app_nil_r, Z.add_0_r. repeat split. constructor.
  - destruct (cycle_run w h c wd n Hn) as (evs & Hc & Hev & Hfr).
    cbn [capture_loop loop_result loop_frames]. unfold bind at 1.
    rewrite Hc.
    destruct (cycle_result c) as [[|]|e|].
    + exists evs. rewrite Hfr, app_nil_r. repeat split; auto.
    + destruct (IH (mkWorld (log wd ++ evs) (self_writer wd)
                      (Some (n + Z.of_nat (List.length (frames_of evs)))))
                  _ eq_refl) as (evs' & Hl & Hev' & Hfr').
      exists (evs ++ evs'). rewrite Hl. cbn [log self_writer].
      rewrite frames_of_app, length_app, Nat2Z.inj_add, <- app_assoc,
        Z.add_assoc, Hfr, Hfr'.
      repeat split. apply Forall_app. split; assumption.
    + exists evs. rewrite Hfr, app_nil_r. repeat split; auto.
    + exists evs. rewrite Hfr, app_nil_r. repeat split; auto.
Qed.

End Script.

Section Session_script.

Ltac settle_run :=
  rewrite <- ?app_assoc;
  match goal with
  | Hev : Forall cycle_event ?evs |- _ =>
      first [ eexists [_; _; _; _]; exists evs;
              split; [rewrite ?app_nil_r; reflexivity|]
            | eexists [_; _; _]; exists evs;
              split; [rewrite ?app_nil_r; reflexivity|] ]
  end;
  repeat split;
  [ repeat (constructor; try exact I) | assumption | assumption ].

Ltac run_tail :=
  sstep;
  match goal with
  | |- context [capture_loop ?w ?h ?cs ?wd] =>
      destruct (loop_run w h cs wd 0 eq_refl) as (evs & Hl & Hev & Hfr);
      rewrite Hl
  end;
  cbn [log self_writer frame_count]; rewrite Z.add_0_l;
  unfold session_result, session_epilogue;
  destruct (loop_result _) as [[]|e|]; cbv beta iota;
  rewrite ?rate_returns; settle_run.

(** A session whose encoder opened is its setup, the opening, what the loop
    does on the script, and the epilogue that fits the way the loop ended. *)
Lemma session_run (env : session_env) (region : rect) :
  selected env region ->
  opening env = inr true ->
  exists pre evs : list event,
    session env world0
    = (session_result (loop_result (cycles env)),
       mkWorld
         (pre ++ EvOpen (writer_for env region true) :: evs
          ++ session_epilogue env (loop_result (cycles env))
               (Z.of_nat (List.length (frames_of evs))))
         (Some (writer_for env region
                  (match loop_result (cycles env) with
                   | Running => true
                   | _ => false
                   end)))
         (Some (Z.of_nat (List.length (frames_of evs))))) /\
    Forall setup_event pre /\
    Forall cycle_event evs /\
    frames_of evs = loop_frames (fst (region_size region)) (cycles env).
Proof.
  destruct env as [[g p] t tt op cs d cl]. intros Hsel Hop.
  cbn [opening] in Hop. subst op.
  specialize (Hsel world0). revert Hsel. sstep.
  destruct g as [e|[rows cols]]; [destruct e; discriminate|].
  destruct p as [e|[[[x y] rw] rh]]; [destruct e; discriminate|].
  unfold writer_for. cbn [fname_now cycles].
  destruct (rect_eqb (x, y, rw, rh) (0, 0, 0, 0)) eqn:Hroi;
    intros Hsel; injection Hsel as <-; cbn [region_size fst snd].
  - run_tail.
  - run_tail.
Qed.

End Session_script.

Section Script_facts.

(** A cycle that reaches its stop check has written its frame. *)
Lemma returned_written (w : Z) (c : cycle_env) (b : bool) :
  cycle_result c = Ret b -> exists f, cycle_written w c = Some f.
Proof.
  unfold cycle_result, cycle_written.
  destruct (grab c) as [e|img]; [discriminate|].
  destruct (overlay c) as [e|]; [discriminate|].
  destruct (write c) as [e|]; [discriminate|].
  intros _. eexists. reflexivity.
Qed.

Lemma loop_result_app (pre rest : list cycle_env) :
  Forall continues pre -> loop_result (pre ++ rest) = loop_result rest.
Proof.
  intros Hpre. induction Hpre as [|c pre Hc _ IH]; [reflexivity|].
  cbn [app loop_result]. rewrite Hc. exact IH.
Qed.

Lemma loop_frames_app (w : Z) (pre rest : list cycle_env) :
  Forall continues pre ->
  List.length (loop_frames w (pre ++ rest))
  = (List.length pre + List.length (loop_frames w rest))%nat.
Proof.
  intros Hpre. induction Hpre as [|c pre Hc _ IH]; [reflexivity|].
  cbn [app loop_frames]. rewrite Hc.
  destruct (returned_written w c false Hc) as [f ->].
  cbn [written_frames app List.length]. rewrite IH. reflexivity.
Qed.

(** The frames of a script are those of a prefix of it, cycle by cycle. *)
Lemma loop_frames_prefix (w : Z) (script : list cycle_env) :
  exists k : nat,
    (k <= List.length script)%nat /\
    map Some (loop_frames w script)
    = map (cycle_written w) (firstn k script).
Proof.
  induction script as [|c rest IH].
  - exists 0%nat. split; [apply Nat.le_refl | reflexivity].
  - cbn [loop_frames].
    destruct (cycle_written w c) as [f|] eqn:Hw.
    + destruct (cycle_result c) as [[|]|e|] eqn:Hr;
        try (exists 1%nat; cbn [List.length firstn map written_frames app];
             rewrite Hw; split; [lia | reflexivity]).
      destruct IH as (k & Hk & IH).
      exists (S k). cbn [List.length firstn map written_frames app].
      rewrite Hw, IH. split; [lia | reflexivity].
    + assert (Hr : match cycle_result c with Ret _ => False | _ => True end).
      { destruct (cycle_result c) as [b|e|] eqn:Hr; try exact I.
        destruct (returned_written w c b Hr) as [f Hf]. congruence. }
      exists 0%nat. split; [cbn; lia|].
      destruct (cycle_result c) as [[|]|e|]; try contradiction; reflexivity.
Qed.

Lemma protocol_app (p : phase) (a b : list event) :
  protocol p (a ++ b)
  = match protocol p a with
    | Some p' => protocol p' b
    | None => None
    end.
Proof.
  revert p. induction a as [|e a IH]; intros p; [reflexivity|].
  cbn [app protocol]. destruct (protocol_step p e); [apply IH | reflexivity].
Qed.

Lemma protocol_setup (p : phase) (l : list event) :
  Forall setup_event l -> protocol p l = Some p.
Proof.
  intros Hl. induction Hl as [|e l He _ IH]; [reflexivity|].
  destruct e; cbn in He; try contradiction; cbn; exact IH.
Qed.

Lemma protocol_cycle (l : list event) :
  Forall cycle_event l -> protocol Recording l = Some Recording.
Proof.
  intros Hl. induction Hl as [|e l He _ IH]; [reflexivity|].
  destruct e; cbn in He; try contradiction; cbn; exact IH.
Qed.

End Script_facts.

(** * Further properties of the program *)

(** ** The outcome of one cycle *)

(** X7. What a cycle comes to is decided by the environment alone, not by
    the world, the frame count or the region: the first call that raises
    decides; otherwise the loop stops when the key code's low byte is [q]
    (113) or ESC (27), and only when it is neither is the window's
    visibility consulted, a value below 1 stopping the loop. *)
Theorem cycle_outcome
    (w h : Z) (c : cycle_env) (wd : world) (n : Z) :
  frame_count wd = Some n ->
  fst (cycle w h c wd) = cycle_result c /\
  self_writer (snd (cycle w h c wd)) = self_writer wd /\
  frames_written (snd (cycle w h c wd))
  = frames_written wd ++ written_frames (cycle_written w c).
Proof.
  intros Hn. destruct (cycle_run w h c wd n Hn) as (evs & -> & _ & Hfr).
  cbn [fst snd self_writer]. unfold frames_written. cbn [log].
  rewrite frames_of_app, Hfr. repeat split.
Qed.

Lemma cycle_outcome_witness :
  fst (cycle 400 300 (quiet_cycle (113 + 256)) (mkWorld [] None (Some 0)))
  = cycle_result (quiet_cycle (113 + 256)) /\
  self_writer
    (snd (cycle 400 300 (quiet_cycle (113 + 256)) (mkWorld [] None (Some 0))))
  = None /\
  frames_written
    (snd (cycle 400 300 (quiet_cycle (113 + 256)) (mkWorld [] None (Some 0))))
  = [] ++ written_frames (cycle_written 400 (quiet_cycle (113 + 256))).
Proof.
  apply (cycle_outcome 400 300 (quiet_cycle (113 + 256))
           (mkWorld [] None (Some 0)) 0).
  reflexivity.
Defined.

(** A stop key is honoured whatever the window does, even when asking the
    window would raise; no key and a visible window let the loop go on. *)
Example stop_key_short_circuits :
  cycle_result
    (mkCycleEnv (inr 7) sample_instant None None (inr 0%Q) None
       (inr (27 + 512)) (inl (Exception (lit "window is gone"))))
  = Ret true /\
  cycle_result (quiet_cycle (-1)) = Ret false /\
  cycle_result
    (mkCycleEnv (inr 7) sample_instant None None (inr 0%Q) None (inr (-1))
       (inr 0%Q))
  = Ret true.
Proof. vm_compute. repeat split. Qed.

(** ** What [main] lets out *)

(** X4. No exception of the [try] body escapes [main] as a
    [KeyboardInterrupt] or a plain [Exception].  When the final
    [cv2.destroyAllWindows()] returns, [main] returns or raises a
    [SystemExit], so that the process ends with status 0 and nothing on
    stderr, or with status 1 and the text of that [SystemExit]; when that
    call raises, its exception is the one [main] raises. *)
Theorem try_body_exceptions_do_not_escape
    (env : session_env) (rep : exit_report) :
  fst (run env) = Some rep ->
  match closing env with
  | None =>
      (fst (main env world0) = Ret tt /\ rep = mkExit 0 []) \/
      (exists msg,
         fst (main env world0) = Raise (SystemExit msg) /\
         rep = mkExit 1 msg)
  | Some x => fst (main env world0) = Raise x
  end.
Proof.
  destruct (session env world0) as [rs ws] eqn:Hs.
  rewrite (run_of_session env rs ws Hs), (main_of_session env rs ws Hs).
  cbn [fst].
  destruct (closing env) as [x|];
    destruct rs as [[]|[|msg|msg]|];
    cbn [main_outcome fst closed interpreter_exit];
    intros H; try discriminate; try reflexivity; injection H as <-.
  - left. split; reflexivity.
  - left. split; reflexivity.
  - right. eexists. split; reflexivity.
  - right. eexists. split; reflexivity.
Qed.

Lemma try_body_exceptions_do_not_escape_witness :
  (fst (main env_error world0) = Ret tt /\
   mkExit 1 (lit "Critical error: screen grab failed") = mkExit 0 []) \/
  (exists msg,
     fst (main env_error world0) = Raise (SystemExit msg) /\
     mkExit 1 (lit "Critical error: screen grab failed") = mkExit 1 msg).
Proof.
  apply (try_body_exceptions_do_not_escape env_error).
  vm_compute. reflexivity.
Defined.

(** When the final clean-up raises, the process ends on that exception,
    whatever the handler had decided. *)
Example closing_failure_replaces_outcome :
  fst (main env_interrupt_closing_fails world0)
  = Raise (Exception (lit "The function is not implemented")) /\
  In aborted_message (log (snd (main env_interrupt_closing_fails world0))) /\
  release_count (snd (main env_interrupt_closing_fails world0)) = 1%nat.
Proof.
  vm_compute. repeat split. do 10 right. left. reflexivity.
Qed.

(** X5. Whichever way a session ends (stop, interrupt, failed selection,
    failed opening, any error), the last thing the program does is
    [cv2.destroyAllWindows()]. *)
Theorem windows_destroyed_last
    (env : session_env) (r : result unit) (w : world) :
  main env world0 = (r, w) ->
  r <> Running ->
  exists before, log w = before ++ [EvDestroyAllWindows].
Proof.
  intros Hmain Hend.
  destruct (session env world0) as [rs ws] eqn:Hs.
  rewrite (main_of_session env rs ws Hs) in Hmain.
  destruct rs as [[]|[|msg|msg]|]; cbn [main_outcome logged fst snd] in Hmain;
    injection Hmain as <- <-; cbn [log];
    try (eexists; reflexivity).
  exfalso. apply Hend. reflexivity.
Qed.

Lemma windows_destroyed_last_witness :
  fst (main env_unopened world0) <> Running /\
  exists before,
    log (snd (main env_unopened world0)) = before ++ [EvDestroyAllWindows].
Proof.
  assert (Hend : fst (main env_unopened world0) <> Running)
    by (vm_compute; discriminate).
  split; [exact Hend|].
  apply (windows_destroyed_last env_unopened
           (fst (main env_unopened world0))).
  - apply surjective_pairing.
  - exact Hend.
Defined.

(** ** The encoder protocol *)

(** X6. The log of every run follows the encoder's protocol: the encoder is
    constructed at most once, frames are written and previewed only while
    it is open, it is released only when open (so never twice, and never
    when it failed to open), and a summary comes only after the release.
    A run that has ended does not leave the encoder open. *)
Theorem encoder_protocol_followed
    (env : session_env) (r : result unit) (w : world) :
  main env world0 = (r, w) ->
  exists p : phase,
    protocol Idle (log w) = Some p /\ (r <> Running -> p <> Recording).
Proof.
  intros Hmain.
  destruct (main_run env r w Hmain)
    as (rs & ws & tail & _ & Hshape & Hout & Hlog & Htail & _ & _ & _).
  rewrite Hlog, protocol_app.
  destruct Hshape as [e pre Hpre _ | region pre msg _ Hpre
                     | region pre evs _ Hpre Hevs _
                     | region pre evs _ Hpre Hevs _
                     | region pre evs e _ Hpre Hevs];
    cbn [log].
  - exists Idle. rewrite (protocol_setup _ pre Hpre), (protocol_setup _ _ Htail).
    split; [reflexivity | discriminate].
  - exists Unusable. rewrite protocol_app, (protocol_setup _ pre Hpre).
    cbn. rewrite (protocol_setup _ _ Htail).
    split; [reflexivity | discriminate].
  - exists Recording. rewrite protocol_app, (protocol_setup _ pre Hpre).
    cbn. rewrite (protocol_cycle evs Hevs), (protocol_setup _ _ Htail).
    split; [reflexivity|]. intros Hend. exfalso. apply Hend.
    apply Hout. reflexivity.
  - exists Released. rewrite protocol_app, (protocol_setup _ pre Hpre).
    cbn [protocol protocol_step writer_for vw_isOpened].
    rewrite protocol_app, (protocol_cycle evs Hevs).
    cbn. rewrite (protocol_setup _ _ Htail).
    split; [reflexivity | discriminate].
  - exists Released. rewrite protocol_app, (protocol_setup _ pre Hpre).
    cbn [protocol protocol_step writer_for vw_isOpened].
    rewrite protocol_app, (protocol_cycle evs Hevs).
    cbn. rewrite (protocol_setup _ _ Htail).
    split; [reflexivity | discriminate].
Qed.

Lemma encoder_protocol_followed_witness :
  exists p : phase,
    protocol Idle (log (snd (main env_error world0))) = Some p /\
    (fst (main env_error world0) <> Running -> p <> Recording).
Proof.
  apply (encoder_protocol_followed env_error (fst (main env_error world0))).
  apply surjective_pairing.
Defined.

(** ** Sessions, script by script *)

Section Opened.

Lemma epilogue_observations (env : session_env) (r : result unit) (n : Z) :
  frames_of (session_epilogue env r n) = [] /\
  filter is_summary (session_epilogue env r n)
  = match r with Ret _ => [summary_of env n] | _ => [] end /\
  List.length (filter is_release (session_epilogue env r n))
  = match r with Running => 0%nat | _ => 1%nat end.
Proof. destruct r as [[]|e|]; repeat split. Qed.

(** What a run of [main] shows once the encoder has opened, in terms of
    the script. *)
Lemma opened_run (env : session_env) (region : rect) :
  selected env region ->
  opening env = inr true ->
  fst (session env world0) = session_result (loop_result (cycles env)) /\
  frames_written (snd (main env world0))
  = loop_frames (fst (region_size region)) (cycles env) /\
  frame_count (snd (main env world0))
  = Some (Z.of_nat (List.length (frames_written (snd (main env world0))))) /\
  summaries (snd (main env world0))
  = match loop_result (cycles env) with
    | Ret _ =>
        [summary_of env
           (Z.of_nat (List.length (frames_written (snd (main env world0)))))]
    | _ => []
    end /\
  release_count (snd (main env world0))
  = match loop_result (cycles env) with Running => 0%nat | _ => 1%nat end.
Proof.
  intros Hsel Hop.
  destruct (session_run env region Hsel Hop)
    as (pre & evs & Hs & Hpre & Hevs & Hfr).
  destruct (main env world0) as [r w] eqn:Hmain.
  rewrite (main_of_session env _ _ Hs) in Hmain.
  destruct (main_outcome _ _) as [r0 w0] eqn:Hout in Hmain.
  cbn [fst snd] in Hmain. injection Hmain as _ ->.
  destruct (main_outcome_log _ _ _ _ Hout)
    as (tail & Hlog & Htail & _ & Hfc & _).
  cbn [log frame_count] in Hlog, Hfc.
  destruct (epilogue_observations env (loop_result (cycles env))
              (Z.of_nat (List.length (frames_of evs))))
    as (Ef & Es & Er).
  assert (Hframes : frames_written w = frames_of evs).
  { unfold frames_written. rewrite Hlog, frames_of_app,
      (setup_no_frames tail Htail), app_nil_r.
    apply frames_of_session_log; assumption. }
  rewrite Hs. cbn [fst snd]. rewrite Hframes.
  split; [reflexivity|]. split; [exact Hfr|]. split; [exact Hfc|].
  unfold summaries, release_count. rewrite Hlog.
  rewrite !filter_app, (setup_no_summary tail Htail),
    (setup_no_release tail Htail), !app_nil_r,
    (setup_no_summary pre Hpre), (setup_no_release pre Hpre).
  cbn [app filter is_summary is_release].
  rewrite !filter_app, (cycle_no_summary evs Hevs),
    (cycle_no_release evs Hevs).
  cbn [app]. split; [exact Es | exact Er].
Qed.

End Opened.

(** X8. In a session whose encoder opened, the frames appended to the file
    are, in order and without gap or repetition, the frames of the first
    [k] cycles of the script, for some [k]: each carries the image grabbed
    in its cycle, the timestamp formatted in that cycle and the indicator
    at the region's width minus 70. *)
Theorem frames_in_script_order
    (env : session_env) (x1 y1 x2 y2 : Z) :
  selected env (x1, y1, x2, y2) ->
  opening env = inr true ->
  exists k : nat,
    (k <= List.length (cycles env))%nat /\
    map Some (frames_written (snd (main env world0)))
    = map (cycle_written (x2 - x1)) (firstn k (cycles env)).
Proof.
  intros Hsel Hop.
  destruct (opened_run env _ Hsel Hop) as (_ & -> & _).
  apply loop_frames_prefix.
Qed.

Lemma frames_in_script_order_witness :
  exists k : nat,
    (k <= List.length (cycles env_interrupt))%nat /\
    map Some (frames_written (snd (main env_interrupt world0)))
    = map (cycle_written (500 - 100)) (firstn k (cycles env_interrupt)).
Proof.
  apply (frames_in_script_order env_interrupt 100 100 500 400).
  - intros w. reflexivity.
  - reflexivity.
Defined.

(** X9. When the first [n] cycles of the script let the loop go on and the
    next one reaches its stop check with a stop signal, the session ends
    normally: exactly [n + 1] frames are in the file, [frame_count] is
    [n + 1], the one summary printed reports [n + 1] frames, the encoder has
    been released once and the process exits with status 0 (when the final
    [cv2.destroyAllWindows()] raises, with the status of its exception). *)
Theorem stop_after_continuing_cycles
    (env : session_env) (region : rect)
    (pre rest : list cycle_env) (c : cycle_env) :
  selected env region ->
  opening env = inr true ->
  cycles env = pre ++ c :: rest ->
  Forall continues pre ->
  cycle_result c = Ret true ->
  fst (run env) = interpreter_exit (closed (closing env) (Ret tt)) /\
  List.length (frames_written (snd (main env world0)))
  = S (List.length pre) /\
  frame_count (snd (main env world0))
  = Some (Z.of_nat (S (List.length pre))) /\
  summaries (snd (main env world0))
  = [summary_of env (Z.of_nat (S (List.length pre)))] /\
  release_count (snd (main env world0)) = 1%nat.
Proof.
  intros Hsel Hop Hscript Hpre Hc.
  destruct (opened_run env region Hsel Hop) as (Hres & Hfr & Hfc & Hsum & Hrel).
  assert (Hloop : loop_result (cycles env) = Ret tt).
  { rewrite Hscript, (loop_result_app pre _ Hpre). cbn. rewrite Hc.
    reflexivity. }
  assert (Hlen : List.length (frames_written (snd (main env world0)))
                 = S (List.length pre)).
  { rewrite Hfr, Hscript, (loop_frames_app _ pre _ Hpre).
    cbn [loop_frames]. rewrite Hc.
    destruct (returned_written (fst (region_size region)) c true Hc)
      as [f ->].
    cbn. lia. }
  rewrite Hloop in *. rewrite Hlen in *.
  repeat split; try assumption.
  destruct (session env world0) as [rs ws] eqn:Hs.
  rewrite (run_of_session env rs ws Hs). cbn [fst] in Hres. subst rs.
  reflexivity.
Qed.

Lemma stop_after_continuing_cycles_witness :
  fst (run env_stop) = Some (mkExit 0 []) /\
  List.length (frames_written (snd (main env_stop world0))) = 3%nat /\
  frame_count (snd (main env_stop world0)) = Some 3 /\
  summaries (snd (main env_stop world0)) = [summary_of env_stop 3] /\
  release_count (snd (main env_stop world0)) = 1%nat.
Proof.
  apply (stop_after_continuing_cycles env_stop (100, 100, 500, 400)
           [quiet_cycle (-1); quiet_cycle (-1)] [] (quiet_cycle 113)).
  - intros w. reflexivity.
  - reflexivity.
  - reflexivity.
  - repeat constructor.
  - reflexivity.
Defined.

(** X10. When the first [n] cycles let the loop go on and a call of the
    next one raises [e], the frames written so far stay in the file ([n] of
    them, and one more when the failing call came after the write), the
    encoder is released once, no summary is printed, and [main] ends as its
    handler for [e] has it: status 0 after a [KeyboardInterrupt], a
    [SystemExit] otherwise (and the exception of the final
    [cv2.destroyAllWindows()] when that call raises). *)
Theorem exception_after_continuing_cycles
    (env : session_env) (region : rect)
    (pre rest : list cycle_env) (c : cycle_env) (e : exn) :
  selected env region ->
  opening env = inr true ->
  cycles env = pre ++ c :: rest ->
  Forall continues pre ->
  cycle_result c = Raise e ->
  fst (main env world0) = closed (closing env) (handler_result e) /\
  List.length (frames_written (snd (main env world0)))
  = (List.length pre
     + List.length
         (written_frames (cycle_written (fst (region_size region)) c)))%nat /\
  summaries (snd (main env world0)) = [] /\
  release_count (snd (main env world0)) = 1%nat.
Proof.
  intros Hsel Hop Hscript Hpre Hc.
  destruct (opened_run env region Hsel Hop) as (Hres & Hfr & _ & Hsum & Hrel).
  assert (Hloop : loop_result (cycles env) = Raise e).
  { rewrite Hscript, (loop_result_app pre _ Hpre). cbn. rewrite Hc.
    reflexivity. }
  rewrite Hloop in *.
  repeat split; try assumption.
  - destruct (session env world0) as [rs ws] eqn:Hs.
    rewrite (main_of_session env rs ws Hs). cbn [fst] in Hres. subst rs.
    destruct e; reflexivity.
  - rewrite Hfr, Hscript, (loop_frames_app _ pre _ Hpre).
    cbn [loop_frames]. rewrite Hc, app_nil_r. reflexivity.
Qed.

Lemma exception_after_continuing_cycles_witness :
  fst (main env_interrupt world0) = handler_result KeyboardInterrupt /\
  List.length (frames_written (snd (main env_interrupt world0)))
  = (2 + List.length
           (written_frames
              (cycle_written 400 (broken_cycle KeyboardInterrupt))))%nat /\
  summaries (snd (main env_interrupt world0)) = [] /\
  release_count (snd (main env_interrupt world0)) = 1%nat.
Proof.
  apply (exception_after_continuing_cycles env_interrupt (100, 100, 500, 400)
           [quiet_cycle (-1); quiet_cycle (-1)] []
           (broken_cycle KeyboardInterrupt) KeyboardInterrupt).
  - intros w. reflexivity.
  - reflexivity.
  - reflexivity.
  - repeat constructor.
  - reflexivity.
Defined.

Section Running_on.

Lemma cycle_result_not_running (c : cycle_env) : cycle_result c <> Running.
Proof.
  unfold cycle_result.
  destruct (grab c); [discriminate|].
  destruct (overlay c); [discriminate|].
  destruct (write c); [discriminate|].
  destruct (elapsed c); [discriminate|].
  destruct (preview c); [discriminate|].
  destruct (waitKey c); [discriminate|].
  destruct (stop_key _); [discriminate|].
  destruct (window_visible c); discriminate.
Qed.

Lemma loop_running_iff (script : list cycle_env) :
  loop_result script = Running <-> Forall continues script.
Proof.
  induction script as [|c rest IH]; cbn [loop_result].
  - split; [constructor | reflexivity].
  - pose proof (cycle_result_not_running c) as Hnr.
    destruct (cycle_result c) as [[|]|e|] eqn:Hc.
    + split; [discriminate|]. intros H. inversion H as [|? ? Hc' _].
      unfold continues in Hc'. congruence.
    + rewrite IH. split.
      * intros H. constructor; assumption.
      * intros H. inversion H. assumption.
    + split; [discriminate|]. intros H. inversion H as [|? ? Hc' _].
      unfold continues in Hc'. congruence.
    + contradiction.
Qed.

End Running_on.

(** X11. Once the encoder has opened, the program is still in its loop
    exactly when every cycle so far let it go on: the only ways out of the
    loop are a stop signal and an exception, and either one ends the
    session. *)
Theorem session_runs_while_cycles_continue
    (env : session_env) (region : rect) :
  selected env region ->
  opening env = inr true ->
  (fst (main env world0) = Running <-> Forall continues (cycles env)).
Proof.
  intros Hsel Hop.
  destruct (opened_run env region Hsel Hop) as (Hres & _).
  destruct (session env world0) as [rs ws] eqn:Hs.
  rewrite (main_of_session env rs ws Hs). cbn [fst] in *.
  rewrite <- loop_running_iff, closed_running.
  destruct (loop_result (cycles env)) as [[]|e|]; cbn in Hres; subst rs.
  - split; discriminate.
  - destruct e; split; discriminate.
  - split; reflexivity.
Qed.

Lemma session_runs_while_cycles_continue_witness :
  fst (main (sample_env [quiet_cycle (-1); quiet_cycle (-1)]) world0)
  = Running <->
  Forall continues (cycles (sample_env [quiet_cycle (-1); quiet_cycle (-1)])).
Proof.
  apply (session_runs_while_cycles_continue
           (sample_env [quiet_cycle (-1); quiet_cycle (-1)])
           (100, 100, 500, 400)).
  - intros w. reflexivity.
  - reflexivity.
Defined.

(** ** An encoder that does not open *)

(** X12. When the region is selected and the writer reports that it is not
    open, [__enter__] leaves through [sys.exit] and [__exit__] is never
    run: the writer stays in [self.writer] and is never released, the loop
    does not start whatever the script holds (no frame, no summary), and
    [main] lets the [SystemExit] through (unless the final
    [cv2.destroyAllWindows()] raises an exception of its own). *)
Theorem failed_open_never_released (env : session_env) (region : rect) :
  selected env region ->
  opening env = inr false ->
  fst (main env world0)
  = closed (closing env)
      (Raise (SystemExit
                (lit "VideoWriter Error: "
                 ++ lit "Failed to initialize video writer for "
                 ++ output_name (fname_now env)))) /\
  self_writer (snd (main env world0)) = Some (writer_for env region false) /\
  In (EvOpen (writer_for env region false)) (log (snd (main env world0))) /\
  release_count (snd (main env world0)) = 0%nat /\
  frames_written (snd (main env world0)) = [] /\
  summaries (snd (main env world0)) = [].
Proof.
  destruct env as [[g p] t tt op cs d cl]. intros Hsel Hop.
  cbn [opening] in Hop. subst op.
  specialize (Hsel world0). revert Hsel. unfold writer_for.
  cbn [fname_now]. sstep.
  destruct g as [e|[rows cols]]; [destruct e; discriminate|].
  destruct p as [e|[[[x y] rw] rh]]; [destruct e; discriminate|].
  destruct (rect_eqb (x, y, rw, rh) (0, 0, 0, 0));
    intros Hsel; injection Hsel as <-; cbn [region_size];
    destruct cl as [xc|];
    (repeat split; cbn; auto 10).
Qed.

Lemma failed_open_never_released_witness :
  self_writer (snd (main env_unopened world0))
  = Some (writer_for env_unopened (100, 100, 500, 400) false) /\
  release_count (snd (main env_unopened world0)) = 0%nat /\
  frames_written (snd (main env_unopened world0)) = [] /\
  summaries (snd (main env_unopened world0)) = [].
Proof.
  destruct (failed_open_never_released env_unopened (100, 100, 500, 400))
    as (_ & Hw & _ & Hr & Hf & Hs).
  - intros w. reflexivity.
  - reflexivity.
  - repeat split; assumption.
Defined.

(** ** [select_region] *)

Section Selection.

Lemma rect_eqb_eq (a b : rect) : rect_eqb a b = true <-> a = b.
Proof.
  destruct a as [[[a1 a2] a3] a4], b as [[[b1 b2] b3] b4].
  unfold rect_eqb. rewrite !andb_true_iff, !Z.eqb_eq.
  split.
  - intros [[[-> ->] ->] ->]. reflexivity.
  - intros H. injection H as -> -> -> ->. repeat split.
Qed.

End Selection.

(** X1. When the screenshot or the ROI picker raises, [select_region] does
    nothing else: the selection window is not closed and nothing is
    printed.  An [Exception] is turned into
    [SystemExit("Region selection failed: ...")]; a [KeyboardInterrupt] or
    a [SystemExit] is not caught by its [except Exception] and leaves the
    function unchanged. *)
Theorem select_region_faults (e : select_env) (x : exn) (w : world) :
  selection_fault e = Some x ->
  select_region e w
  = (Raise (escalated (lit "Region selection failed: ") x), w).
Proof.
  destruct e as [g p]. unfold selection_fault. cbn [grabbed picked].
  destruct g as [xg|shape].
  - intros H. injection H as <-. destruct xg; reflexivity.
  - destruct p as [xp|roi]; [|discriminate].
    intros H. injection H as <-. destruct xp; reflexivity.
Qed.

Lemma select_region_faults_witness :
  select_region (mkSelectEnv (inr (1080, 1920)) (inl KeyboardInterrupt))
    world0
  = (Raise (escalated (lit "Region selection failed: ") KeyboardInterrupt),
     world0).
Proof.
  apply (select_region_faults
           (mkSelectEnv (inr (1080, 1920)) (inl KeyboardInterrupt))
           KeyboardInterrupt world0).
  reflexivity.
Defined.

(** X2. For every rectangle (x, y, w, h) other than (0,0,0,0) that the
    picker returns, [select_region] closes the selection window, prints
    nothing and returns the corners (x, y, x+w, y+h); the width and height
    [main] computes from these corners are again w and h, also when they
    are zero or negative. *)
Theorem select_region_keeps_size
    (rows cols x y rw rh : Z) (w : world) :
  (x, y, rw, rh) <> (0, 0, 0, 0) ->
  select_region (mkSelectEnv (inr (rows, cols)) (inr (x, y, rw, rh))) w
  = (Ret (x, y, x + rw, y + rh), logged w [EvDestroyAllWindows]) /\
  region_size (x, y, x + rw, y + rh) = (rw, rh).
Proof.
  intros Hne. split.
  - sstep. destruct (rect_eqb (x, y, rw, rh) (0, 0, 0, 0)) eqn:Hroi.
    + apply rect_eqb_eq in Hroi. contradiction.
    + reflexivity.
  - cbn [region_size]. f_equal; lia.
Qed.

Lemma select_region_keeps_size_witness :
  select_region click_selection world0
  = (Ret (100, 100, 100 + 0, 100 + 0), logged world0 [EvDestroyAllWindows]) /\
  region_size (100, 100, 100 + 0, 100 + 0) = (0, 0).
Proof.
  apply (select_region_keeps_size 1080 1920 100 100 0 0 world0).
  discriminate.
Defined.

(** ** The output file name *)

(** X3. For every instant within the ranges [datetime] enforces, the
    output file is named [screen_rec_YYYYMMDD_HHMMSS.mp4] with every field
    zero-padded to its width, 30 characters in all. *)
Theorem output_name_layout (t : datetime) :
  valid_datetime t ->
  output_name t
  = lit "screen_rec_" ++ digits 4 (year t) ++ digits 2 (month t)
    ++ digits 2 (day t) ++ lit "_" ++ digits 2 (hour t)
    ++ digits 2 (minute t) ++ digits 2 (second t) ++ lit ".mp4" /\
  List.length (output_name t) = 30%nat.
Proof.
  intros (Hy & Hm & Hd & HH & HM & HS & _).
  assert (E : output_name t
              = lit "screen_rec_" ++ digits 4 (year t) ++ digits 2 (month t)
                ++ digits 2 (day t) ++ lit "_" ++ digits 2 (hour t)
                ++ digits 2 (minute t) ++ digits 2 (second t) ++ lit ".mp4").
  { unfold output_name, strftime_compact.
    rewrite (zpad_digits 3), !(zpad_digits 1) by (cbn; lia).
    rewrite <- !app_assoc. reflexivity. }
  split; [exact E|].
  rewrite E, !length_app, !digits_length. reflexivity.
Qed.

Lemma output_name_layout_witness :
  output_name sample_instant
  = lit "screen_rec_" ++ digits 4 2024 ++ digits 2 3 ++ digits 2 1
    ++ lit "_" ++ digits 2 10 ++ digits 2 15 ++ digits 2 30 ++ lit ".mp4" /\
  List.length (output_name sample_instant) = 30%nat.
Proof.
  apply (output_name_layout sample_instant).
  unfold valid_datetime; simpl; lia.
Defined.

Example output_name_sample :
  output_name sample_instant = lit "screen_rec_20240301_101530.mp4".
Proof. vm_compute. reflexivity. Qed.

(** ** Exit status, cause by cause *)

Section Causes.

Lemma handler_outcome (e : exn) (ws : world) :
  fst (main_outcome (Raise e) ws) = handler_result e /\
  log (snd (main_outcome (Raise e) ws))
  = log ws ++ handler_events e ++ [EvDestroyAllWindows].
Proof.
  destruct e; cbn; rewrite <- ?app_assoc; split; reflexivity.
Qed.

(** An exception that leaves the [try] body and that the handlers turn
    into a [SystemExit] ends the process with a non-zero status, and with
    the handler's diagnostic when the final clean-up returns. *)
Lemma failure_exit (env : session_env) (e : exn) (diag : text) :
  fst (session env world0) = Raise e ->
  handler_result e = Raise (SystemExit diag) ->
  exits_nonzero env /\ (closing env = None -> failed_with env diag).
Proof.
  intros Hres Hdiag.
  destruct (session env world0) as [rs ws] eqn:Hs. cbn [fst] in Hres.
  subst rs. unfold exits_nonzero, failed_with.
  rewrite (run_of_session env _ ws Hs). cbn [fst].
  rewrite (proj1 (handler_outcome e ws)), Hdiag.
  split.
  - destruct (closing env) as [[|m|m]|]; cbn [closed interpreter_exit];
      eexists; (split; [reflexivity | discriminate]).
  - intros ->. exists 1. split; [reflexivity | discriminate].
Qed.

(** A [KeyboardInterrupt] that leaves the [try] body gets the abort line,
    then the final clean-up, and status 0 when the clean-up returns. *)
Lemma interrupt_exit (env : session_env) :
  fst (session env world0) = Raise KeyboardInterrupt ->
  (exists before,
     log (snd (run env)) = before ++ [aborted_message; EvDestroyAllWindows]) /\
  (closing env = None -> fst (run env) = Some (mkExit 0 [])).
Proof.
  intros Hres.
  destruct (session env world0) as [rs ws] eqn:Hs. cbn [fst] in Hres.
  subst rs. rewrite (run_of_session env _ ws Hs). cbn [fst snd].
  split.
  - exists (log ws). exact (proj2 (handler_outcome KeyboardInterrupt ws)).
  - intros ->. reflexivity.
Qed.

Lemma selection_fault_exit (env : session_env) (x : exn) :
  selection_fault (selection env) = Some x ->
  fst (session env world0)
  = Raise (escalated (lit "Region selection failed: ") x).
Proof.
  destruct env as [[g p] t tt op cs d cl]. unfold selection_fault.
  cbn [selection grabbed picked].
  destruct g as [xg|shape].
  - intros H. injection H as <-. destruct xg; reflexivity.
  - destruct p as [xp|roi]; [|discriminate].
    intros H. injection H as <-. destruct xp; reflexivity.
Qed.

Lemma constructor_fault_exit (env : session_env) (x : exn) :
  (exists region, selected env region) ->
  opening env = inl x ->
  fst (session env world0) = Raise (escalated (lit "VideoWriter Error: ") x).
Proof.
  destruct env as [[g p] t tt op cs d cl]. cbn [opening].
  intros [region Hsel] ->. specialize (Hsel world0). revert Hsel.
  sstep.
  destruct g as [e|[rows cols]]; [destruct e; discriminate|].
  destruct p as [e|[[[rx ry] rw] rh]]; [destruct e; discriminate|].
  intros _.
  destruct (rect_eqb (rx, ry, rw, rh) (0, 0, 0, 0)); destruct x; reflexivity.
Qed.

Lemma loop_fault_exit (env : session_env) (e : exn) :
  loop_raises env e -> fst (session env world0) = Raise e.
Proof.
  intros ([region Hsel] & Hop & Hloop).
  destruct (opened_run env region Hsel Hop) as (-> & _).
  rewrite Hloop. reflexivity.
Qed.

Lemma interrupt_reaches_main (env : session_env) :
  interrupt_raised env -> fst (session env world0) = Raise KeyboardInterrupt.
Proof.
  intros [Hsel | [[Hsel Hop] | Hloop]].
  - apply (selection_fault_exit env _ Hsel).
  - apply (constructor_fault_exit env _ Hsel Hop).
  - apply (loop_fault_exit env _ Hloop).
Qed.

End Causes.

(** C7, as the code has it.  A [KeyboardInterrupt] raised by the region
    selection, by the construction of the encoder or by a call of the
    capture loop makes the program print the aborted-by-user message and
    then make its final [cv2.destroyAllWindows()] call; when that call
    returns, the process exits with status 0.  A failing region selection,
    a failing encoder opening and an [Exception] raised by a call of the
    capture loop end the process with a non-zero status, and with the
    diagnostic that names the failure when the final call returns. *)
Theorem exit_status_by_cause (env : session_env) :
  (interrupt_raised env ->
   (exists before,
      log (snd (run env))
      = before ++ [aborted_message; EvDestroyAllWindows]) /\
   (closing env = None -> fst (run env) = Some (mkExit 0 []))) /\
  (forall msg,
     selection_fails env msg ->
     exits_nonzero env /\
     (closing env = None ->
      failed_with env (lit "Region selection failed: " ++ msg))) /\
  (forall msg,
     open_fails env msg ->
     exits_nonzero env /\
     (closing env = None ->
      failed_with env (lit "VideoWriter Error: " ++ msg))) /\
  (forall msg,
     loop_raises env (Exception msg) ->
     exits_nonzero env /\
     (closing env = None ->
      failed_with env (lit "Critical error: " ++ msg))).
Proof.
  repeat apply conj.
  - intros Hint. apply interrupt_exit, interrupt_reaches_main, Hint.
  - intros msg Hfail.
    apply (failure_exit env _ _ (selection_failure_exit env msg Hfail)).
    reflexivity.
  - intros msg Hfail.
    apply (failure_exit env _ _ (open_failure_exit env msg Hfail)).
    reflexivity.
  - intros msg Hfail.
    apply (failure_exit env _ _ (loop_fault_exit env _ Hfail)).
    reflexivity.
Qed.

Lemma exit_status_by_cause_witness :
  interrupt_raised env_interrupt /\
  closing env_interrupt = None /\
  fst (run env_interrupt) = Some (mkExit 0 []) /\
  loop_raises env_error (Exception (lit "screen grab failed")) /\
  failed_with env_error (lit "Critical error: " ++ lit "screen grab failed").
Proof.
  assert (Hsel : exists region, selected (sample_env []) region)
    by (exists (100, 100, 500, 400); intros w; reflexivity).
  assert (Hi : interrupt_raised env_interrupt).
  { right. right. split; [exact Hsel|]. split; reflexivity. }
  assert (He : loop_raises env_error (Exception (lit "screen grab failed"))).
  { split; [exact Hsel|]. split; reflexivity. }
  destruct (exit_status_by_cause env_interrupt) as [Hint _].
  destruct (exit_status_by_cause env_error) as (_ & _ & _ & Herr).
  split; [exact Hi|]. split; [reflexivity|].
  split; [exact (proj2 (Hint Hi) eq_refl)|].
  split; [exact He|]. exact (proj2 (Herr _ He) eq_refl).
Defined.

(** C7, as stated, fails in two ways.  A Ctrl-C that arrives while
    [load_font] loads the font is absorbed by its bare [except]: the session
    goes on, ends with a summary and never prints the abort message.  And
    when the final [cv2.destroyAllWindows()] raises, a session interrupted
    in its loop prints the abort message but ends with status 1. *)
Lemma interrupt_not_always_reported :
  (truetype env_font_interrupt = Some KeyboardInterrupt /\
   ~ In aborted_message (log (snd (run env_font_interrupt))) /\
   summaries (snd (run env_font_interrupt))
   = [summary_of env_font_interrupt 3]) /\
  (interrupt_raised env_interrupt_closing_fails /\
   In aborted_message (log (snd (run env_interrupt_closing_fails))) /\
   fst (run env_interrupt_closing_fails)
   = Some (mkExit 1
             (lit "Traceback: " ++ lit "The function is not implemented"))).
Proof.
  split.
  - split; [reflexivity|]. split; [|vm_compute; reflexivity].
    intros H. vm_compute in H.
    repeat (destruct H as [H|H]; [discriminate H|]). exact H.
  - split.
    + right. right. split; [|split; reflexivity].
      exists (100, 100, 500, 400). intros w. reflexivity.
    + split; [|vm_compute; reflexivity].
      vm_compute. do 10 right. left. reflexivity.
Qed.
